(** * Rustorium ledger core ([api_server/blockchain.py])

    A shallow embedding of the in-memory ledger: transactions, blocks,
    accounts, the pending pool, Proof-of-Work mining, chain validation and
    the lookup helpers, followed by the properties established about them.

    Modelling conventions.
    - Python [int] is [Z]; lengths and the difficulty are [nat].
    - A Python [float] that the ledger computes with (amounts, fees,
      balances) is an IEEE 754 binary64 number, [Float.t], with the
      operations of the Standard Library's [SpecFloat], which round to
      nearest, ties to even.  The [int] balances the code stores (the
      literals 0, 500000, 750000 and 1000000) are the floats of the same
      value: Python converts them exactly wherever it adds to, subtracts
      from or compares them with a float.
    - A timestamp, a clock reading that is copied, compared and, for the
      statistics, subtracted and averaged, is idealised as an exact rational,
      [Qc].
    - [uuid.uuid4()] and [time.time()] are made explicit arguments of the
      operation that calls them.
    - [hashlib.sha256(json.dumps(..., sort_keys=True)).hexdigest()] is a
      parameter [digest] of the development: a function from the six hashed
      block fields to a hexadecimal string.
    - An operation is a function from the ledger to an outcome and the ledger
      it leaves behind; an exception keeps the mutations made before it.
    - Identifiers, addresses and hashes are strings, only ever compared.  The
      [data] of a transaction is a Python [str], a sequence of code points,
      [pystr], and [len] its length.
    - The nonce search is given a number of steps, [fuel], and reports when
      it has used them up.
    - [Transaction.sign] and [Transaction.verify], which no ledger operation
      calls, and the lock are left out. *)

From Stdlib Require Import String Ascii ZArith QArith Qcanon Lia.
From Stdlib Require Import Sorted.
From Stdlib Require Import SpecFloat.
From stdpp Require Import gmap strings list fin_maps countable.

Local Open Scope Z_scope.

(** ** Python floats and strings *)

Module Float.
(** binary64: 53 bits of precision, exponents below 1024. *)
Definition t := spec_float.

Definition prec : Z := 53.

Definition emax : Z := 1024.

(** The float nearest to an integer, ties to even; an infinity when the
    integer is out of range. *)
Definition of_int (z : Z) : t := binary_normalize prec emax z 0 false.

(** The conversion Python applies to an [int] operand of a float operation:
    it raises [OverflowError], here [None], when the integer is out of
    range. *)
Definition int_to_float (z : Z) : option t :=
  match of_int z with
  | S754_infinity _ => None
  | x => Some x
  end.

(** [x + y], [x - y], [x / y] for a divisor other than zero, and [x < y]. *)
Definition add : t -> t -> t := SFadd prec emax.

Definition sub : t -> t -> t := SFsub prec emax.

Definition div : t -> t -> t := SFdiv prec emax.

Definition ltb : t -> t -> bool := SFltb.

(** [0.0], also the value of the [int] [0]. *)
Definition zero : t := S754_zero false.
End Float.

(** A Python [str] whose length matters: its code points. *)
Definition pystr := list N.

(** ** Data model *)

(** [Transaction.status]: the three strings the source uses. *)
Inductive Status := Pending | Confirmed | Failed.

(** The address rewards are paid from. *)
Definition SYSTEM_ADDRESS : string := "0x0000000000000000000000000000000000000000".

(** The dictionary [Transaction.to_dict] builds; blocks embed these
    dictionaries, not the [Transaction] objects. *)
Module TxDict.
Record t := mk {
  id : string;
  sender : string;
  recipient : string;
  amount : Float.t;
  fee : Float.t;
  nonce : Z;
  timestamp : Qc;
  data : pystr;
  status : Status;
  block_number : option Z;
  gas_used : Z;
  gas_price : Z;
  gas_limit : Z
}.

(** [tx_dict['block_number'] = n] *)
Definition set_block_number (n : Z) (d : t) : t :=
  mk (id d) (sender d) (recipient d) (amount d) (fee d) (nonce d)
     (timestamp d) (data d) (status d) (Some n)
     (gas_used d) (gas_price d) (gas_limit d).
End TxDict.

Module Transaction.
Record t := mk {
  id : string;
  sender : string;
  recipient : string;
  amount : Float.t;
  fee : Float.t;
  data : pystr;
  nonce : Z;
  timestamp : Qc;
  status : Status;
  block_number : option Z;
  gas_price : Z;
  gas_limit : Z;
  gas_used : Z
}.

(** [(gas_used * gas_price) / 1e9]: the product is an [int], which the
    division by a float converts first; the conversion raises
    [OverflowError], here [None], when the product is out of range. *)
Definition fee_of (gas_used gas_price : Z) : option Float.t :=
  match Float.int_to_float (gas_used * gas_price) with
  | Some product => Some (Float.div product (Float.of_int 1000000000))
  | None => None
  end.

(** [Transaction.__init__]; [uuid] stands for the identifier drawn from
    [uuid.uuid4()] and [now] for [time.time()].  The [fee] argument is stored
    and then overwritten by the derived fee; when deriving the fee raises,
    no transaction is constructed. *)
Definition init (uuid : string) (now : Qc)
    (sender recipient : string) (amount : Float.t) (fee : Float.t)
    (data : pystr) (nonce : Z) (gas_price gas_limit : Z) : option t :=
  let gas_used := 21000 in
  let gas_used :=
    match data with
    | [] => gas_used
    | _ => gas_used + Z.of_nat (length data) * 68
    end in
  let gas_used := Z.min gas_used gas_limit in
  match fee_of gas_used gas_price with
  | Some fee =>
      Some (mk uuid sender recipient amount fee data nonce now Pending None
              gas_price gas_limit gas_used)
  | None => None
  end.

Definition set_status (s : Status) (tx : t) : t :=
  mk (id tx) (sender tx) (recipient tx) (amount tx) (fee tx) (data tx)
     (nonce tx) (timestamp tx) s (block_number tx)
     (gas_price tx) (gas_limit tx) (gas_used tx).

Definition set_block_number (n : Z) (tx : t) : t :=
  mk (id tx) (sender tx) (recipient tx) (amount tx) (fee tx) (data tx)
     (nonce tx) (timestamp tx) (status tx) (Some n)
     (gas_price tx) (gas_limit tx) (gas_used tx).

Definition set_nonce (n : Z) (tx : t) : t :=
  mk (id tx) (sender tx) (recipient tx) (amount tx) (fee tx) (data tx)
     n (timestamp tx) (status tx) (block_number tx)
     (gas_price tx) (gas_limit tx) (gas_used tx).

Definition to_dict (tx : t) : TxDict.t :=
  TxDict.mk (id tx) (sender tx) (recipient tx) (amount tx) (fee tx)
    (nonce tx) (timestamp tx) (data tx) (status tx) (block_number tx)
    (gas_used tx) (gas_price tx) (gas_limit tx).
End Transaction.

Module Account.
Record t := mk {
  address : string;
  private_key : option string;
  balance : Float.t;
  is_contract : bool;
  nonce : Z;
  transaction_count : Z;
  last_activity : Qc;
  tokens : list (string * Float.t)
}.

(** [Account.__init__]; [now] stands for [time.time()]. *)
Definition init (now : Qc) (address : string) (private_key : option string)
    (balance : Float.t) : t :=
  mk address private_key balance false 0 0 now [].

Definition set_nonce (n : Z) (a : t) : t :=
  mk (address a) (private_key a) (balance a) (is_contract a) n
     (transaction_count a) (last_activity a) (tokens a).

(** The three assignments made to a debited sender. *)
Definition debit (total : Float.t) (ts : Qc) (a : t) : t :=
  mk (address a) (private_key a) (Float.sub (balance a) total) (is_contract a)
     (nonce a) (transaction_count a + 1) ts (tokens a).

(** The two assignments made to a credited recipient. *)
Definition credit (amount : Float.t) (ts : Qc) (a : t) : t :=
  mk (address a) (private_key a) (Float.add (balance a) amount) (is_contract a)
     (nonce a) (transaction_count a) ts (tokens a).
End Account.

(** The six fields [Block.calculate_hash] serialises. *)
Record BlockContent := mkContent {
  c_index : Z;
  c_transactions : list TxDict.t;
  c_timestamp : Qc;
  c_previous_hash : string;
  c_validator : string;
  c_nonce : Z
}.

Module Block.
Record t := mk {
  index : Z;
  transactions : list TxDict.t;
  timestamp : Qc;
  previous_hash : string;
  validator : string;
  difficulty : nat;
  nonce : Z;
  hash : string;
  size : Z;
  gas_used : Z;
  gas_limit : Z
}.

Definition content (b : t) : BlockContent :=
  mkContent (index b) (transactions b) (timestamp b) (previous_hash b)
    (validator b) (nonce b).

Definition set_hash (h : string) (b : t) : t :=
  mk (index b) (transactions b) (timestamp b) (previous_hash b)
     (validator b) (difficulty b) (nonce b) h (size b) (gas_used b)
     (gas_limit b).

Definition set_nonce (n : Z) (b : t) : t :=
  mk (index b) (transactions b) (timestamp b) (previous_hash b)
     (validator b) (difficulty b) n (hash b) (size b) (gas_used b)
     (gas_limit b).

Definition set_index (i : Z) (b : t) : t :=
  mk i (transactions b) (timestamp b) (previous_hash b)
     (validator b) (difficulty b) (nonce b) (hash b) (size b) (gas_used b)
     (gas_limit b).

Definition set_timestamp (ts : Qc) (b : t) : t :=
  mk (index b) (transactions b) ts (previous_hash b)
     (validator b) (difficulty b) (nonce b) (hash b) (size b) (gas_used b)
     (gas_limit b).

Definition set_previous_hash (p : string) (b : t) : t :=
  mk (index b) (transactions b) (timestamp b) p
     (validator b) (difficulty b) (nonce b) (hash b) (size b) (gas_used b)
     (gas_limit b).

Definition set_transactions (txs : list TxDict.t) (b : t) : t :=
  mk (index b) txs (timestamp b) (previous_hash b)
     (validator b) (difficulty b) (nonce b) (hash b) (size b) (gas_used b)
     (gas_limit b).
End Block.

(** The ledger object: [chain], [pending_transactions] and [accounts]. *)
Record Blockchain := mkBlockchain {
  chain : list Block.t;
  pending_transactions : list Transaction.t;
  accounts : gmap string Account.t
}.

(** The exceptions the ledger raises: the two [ValueError]s of
    [add_transaction]; the [OverflowError] of the fee computed by the
    constructor of a transaction; the [TypeError] of the call
    [Account(..., last_activity=...)], a keyword [Account.__init__] does not
    take; [IndexError] is [self.chain[-1]] on an empty chain and [KeyError]
    is [self.accounts[k]] on a missing key. *)
Inductive exn :=
| UnknownSender
| InsufficientBalance
| OverflowError
| TypeError
| IndexError
| KeyError.

(** What a call does: return, raise, or (for the nonce search) use up the
    steps it was given. *)
Inductive outcome (A : Type) :=
| Returned (a : A)
| Raised (e : exn)
| OutOfFuel.
Arguments Returned {A} a.
Arguments Raised {A} e.
Arguments OutOfFuel {A}.

(** ** Operations that do not hash *)

(** [Block.to_dict] *)
Record BlockDict := mkBlockDict {
  bd_number : Z;
  bd_hash : string;
  bd_parent_hash : string;
  bd_timestamp : Qc;
  bd_transactions : list string;
  bd_size : Z;
  bd_gas_used : Z;
  bd_gas_limit : Z;
  bd_difficulty : nat;
  bd_validator : string;
  bd_nonce : Z
}.

Definition Block_to_dict (b : Block.t) : BlockDict :=
  mkBlockDict (Block.index b) (Block.hash b) (Block.previous_hash b)
    (Block.timestamp b) (map TxDict.id (Block.transactions b))
    (Block.size b) (Block.gas_used b) (Block.gas_limit b)
    (Block.difficulty b) (Block.validator b) (Block.nonce b).

(** [sum(tx.get('gas_used', 0) for tx in transactions) if transactions else 0] *)
Definition sum_gas_used (transactions : list TxDict.t) : Z :=
  fold_right Z.add 0 (map TxDict.gas_used transactions).

(** ["0" * n] *)
Fixpoint zeros (n : nat) : string :=
  match n with
  | O => EmptyString
  | S n' => String "0" (zeros n')
  end.

(** [self.hash[:self.difficulty] != target], negated *)
Definition meets_target (b : Block.t) : bool :=
  String.eqb (substring 0 (Block.difficulty b) (Block.hash b))
             (zeros (Block.difficulty b)).

(** [Blockchain.get_latest_block]: [self.chain[-1]] *)
Definition get_latest_block (bc : Blockchain) : option Block.t :=
  list.last (chain bc).

Definition set_accounts (accs : gmap string Account.t) (bc : Blockchain) : Blockchain :=
  mkBlockchain (chain bc) (pending_transactions bc) accs.

Definition set_pending (p : list Transaction.t) (bc : Blockchain) : Blockchain :=
  mkBlockchain (chain bc) p (accounts bc).

Definition set_chain (c : list Block.t) (bc : Blockchain) : Blockchain :=
  mkBlockchain c (pending_transactions bc) (accounts bc).

(** [Blockchain.add_transaction] once the argument is a [Transaction]
    object.  The recipient's account is created before the balance check, and
    stays when the check raises. *)
Definition add_transaction (now : Qc) (tx : Transaction.t) (bc : Blockchain)
  : outcome string * Blockchain :=
  match accounts bc !! Transaction.sender tx with
  | None => (Raised UnknownSender, bc)
  | Some _ =>
    let accs :=
      match accounts bc !! Transaction.recipient tx with
      | None =>
          <[Transaction.recipient tx :=
              Account.init now (Transaction.recipient tx) None Float.zero]>
            (accounts bc)
      | Some _ => accounts bc
      end in
    match accs !! Transaction.sender tx with
    | None => (Raised KeyError, set_accounts accs bc)
    | Some sender_account =>
      if Float.ltb (Account.balance sender_account)
           (Float.add (Transaction.amount tx) (Transaction.fee tx))
      then (Raised InsufficientBalance, set_accounts accs bc)
      else
        let tx := Transaction.set_nonce (Account.nonce sender_account) tx in
        let pending := pending_transactions bc ++ [tx] in
        let accs :=
          <[Transaction.sender tx :=
              Account.set_nonce (Account.nonce sender_account + 1) sender_account]> accs in
        (Returned (Transaction.id tx), mkBlockchain (chain bc) pending accs)
    end
  end.

(** The request dictionary the HTTP layer passes to [add_transaction], with
    the types its request model gives the entries: [amount] a float, on
    which [float(...)] is the identity, [gas_price] and [gas_limit]
    integers, on which [int(...)] is. *)
Record TxRequest := mkTxRequest {
  req_from : string;
  req_to : string;
  req_amount : Float.t;
  req_data : pystr;
  req_gas_price : Z;
  req_gas_limit : Z
}.

(** [Blockchain.add_transaction] on a dictionary: build the [Transaction]
    (default [fee] 0.0 and [nonce] 0), then proceed as above; when the
    constructor raises, the ledger has not been looked at.  [uuid] and [now]
    are the values drawn by the constructor; [now'] is the clock read by
    [Account.__init__] if the recipient has to be created. *)
Definition stage_transaction (uuid : string) (now now' : Qc) (r : TxRequest)
    (bc : Blockchain) : outcome string * Blockchain :=
  match Transaction.init uuid now (req_from r) (req_to r) (req_amount r)
          Float.zero (req_data r) 0 (req_gas_price r) (req_gas_limit r) with
  | Some tx => add_transaction now' tx bc
  | None => (Raised OverflowError, bc)
  end.

(** [Blockchain._process_transaction].  The transaction object is updated
    first, the sender is debited unless it is the system address, and the
    recipient is credited; for a recipient without an account the
    constructor call raises. *)
Definition _process_transaction (transaction : Transaction.t) (block_number : Z)
    (accs : gmap string Account.t)
  : Transaction.t * gmap string Account.t * option exn :=
  let transaction :=
    Transaction.set_block_number block_number
      (Transaction.set_status Confirmed transaction) in
  let accs :=
    if decide (Transaction.sender transaction = SYSTEM_ADDRESS) then accs
    else
      match accs !! Transaction.sender transaction with
      | Some sender =>
          <[Transaction.sender transaction :=
              Account.debit
                (Float.add (Transaction.amount transaction)
                   (Transaction.fee transaction))
                (Transaction.timestamp transaction) sender]> accs
      | None => accs
      end in
  match accs !! Transaction.recipient transaction with
  | Some recipient =>
      (transaction,
       <[Transaction.recipient transaction :=
           Account.credit (Transaction.amount transaction)
             (Transaction.timestamp transaction) recipient]> accs,
       None)
  | None => (transaction, accs, Some TypeError)
  end.

(** [for tx in self.pending_transactions: self._process_transaction(tx, n)]:
    the pool as the loop leaves it, the accounts, and the exception that
    stopped the loop, if any. *)
Fixpoint process_pending (txs : list Transaction.t) (block_number : Z)
    (accs : gmap string Account.t)
  : list Transaction.t * gmap string Account.t * option exn :=
  match txs with
  | [] => ([], accs, None)
  | tx :: rest =>
      match _process_transaction tx block_number accs with
      | (tx', accs', Some e) => (tx' :: rest, accs', Some e)
      | (tx', accs', None) =>
          match process_pending rest block_number accs' with
          | (rest', accs'', e) => (tx' :: rest', accs'', e)
          end
      end
  end.

(** ** Lookups *)

(** [Blockchain.get_account] *)
Definition get_account (address : string) (bc : Blockchain) : option Account.t :=
  accounts bc !! address.

(** [Blockchain.create_account]; [private_key] and [address] stand for the
    strings derived from [uuid.uuid4()], [now] for [time.time()]. *)
Definition create_account (private_key address : string) (now : Qc)
    (bc : Blockchain) : Account.t * Blockchain :=
  let account := Account.init now address (Some private_key) Float.zero in
  (account, set_accounts (<[address := account]> (accounts bc)) bc).

(** [Blockchain.get_block_by_number] *)
Definition get_block_by_number (number : Z) (bc : Blockchain) : option Block.t :=
  if decide (0 <= number < Z.of_nat (length (chain bc)))
  then chain bc !! Z.to_nat number
  else None.

(** [Blockchain.get_block_by_hash] *)
Definition get_block_by_hash (block_hash : string) (bc : Blockchain) : option Block.t :=
  find (fun block => String.eqb (Block.hash block) block_hash) (chain bc).

(** The inner loop of [get_transaction] over one block's dictionaries: the
    first dictionary with the identifier gets [block_number] assigned in
    place and is returned. *)
Fixpoint find_tx_dict (tx_id : string) (block_index : Z) (ds : list TxDict.t)
  : option (TxDict.t * list TxDict.t) :=
  match ds with
  | [] => None
  | d :: rest =>
      if String.eqb (TxDict.id d) tx_id
      then let d' := TxDict.set_block_number block_index d in Some (d', d' :: rest)
      else match find_tx_dict tx_id block_index rest with
           | Some (r, rest') => Some (r, d :: rest')
           | None => None
           end
  end.

(** The outer loop of [get_transaction] over the chain. *)
Fixpoint find_tx_chain (tx_id : string) (blocks : list Block.t)
  : option (TxDict.t * list Block.t) :=
  match blocks with
  | [] => None
  | block :: rest =>
      match find_tx_dict tx_id (Block.index block) (Block.transactions block) with
      | Some (r, ds') => Some (r, Block.set_transactions ds' block :: rest)
      | None =>
          match find_tx_chain tx_id rest with
          | Some (r, rest') => Some (r, block :: rest')
          | None => None
          end
      end
  end.

(** [Blockchain.get_transaction]: the pending pool first (a fresh
    dictionary), then the chain (the stored dictionary, updated). *)
Definition get_transaction (tx_id : string) (bc : Blockchain)
  : option TxDict.t * Blockchain :=
  match find (fun tx => String.eqb (Transaction.id tx) tx_id) (pending_transactions bc) with
  | Some tx => (Some (Transaction.to_dict tx), bc)
  | None =>
      match find_tx_chain tx_id (chain bc) with
      | Some (r, chain') => (Some r, set_chain chain' bc)
      | None => (None, bc)
      end
  end.

(** [sender == address or recipient == address] *)
Definition dict_involves (address : string) (d : TxDict.t) : bool :=
  String.eqb (TxDict.sender d) address || String.eqb (TxDict.recipient d) address.

(** One block of the first loop of [get_account_transactions]: matching
    dictionaries get [block_number] assigned in place and are collected. *)
Fixpoint collect_dicts (address : string) (block_index : Z) (ds : list TxDict.t)
  : list TxDict.t * list TxDict.t :=
  match ds with
  | [] => ([], [])
  | d :: rest =>
      let '(found, rest') := collect_dicts address block_index rest in
      if dict_involves address d
      then let d' := TxDict.set_block_number block_index d in (d' :: found, d' :: rest')
      else (found, d :: rest')
  end.

Fixpoint collect_chain (address : string) (blocks : list Block.t)
  : list TxDict.t * list Block.t :=
  match blocks with
  | [] => ([], [])
  | block :: rest =>
      let '(found, ds') :=
        collect_dicts address (Block.index block) (Block.transactions block) in
      let '(found', rest') := collect_chain address rest in
      (found ++ found', Block.set_transactions ds' block :: rest')
  end.

(** [list.sort(key=timestamp, reverse=True)]: stable, descending. *)
Fixpoint insert_desc (d : TxDict.t) (sorted : list TxDict.t) : list TxDict.t :=
  match sorted with
  | [] => [d]
  | x :: rest =>
      if decide (TxDict.timestamp x < TxDict.timestamp d)%Qc
      then d :: x :: rest
      else x :: insert_desc d rest
  end.

Definition sort_desc (ds : list TxDict.t) : list TxDict.t :=
  fold_left (fun acc d => insert_desc d acc) ds [].

(** [Blockchain.get_account_transactions] *)
Definition get_account_transactions (address : string) (bc : Blockchain)
  : list TxDict.t * Blockchain :=
  let '(confirmed, chain') := collect_chain address (chain bc) in
  let pending :=
    map Transaction.to_dict
      (filter (fun tx => Transaction.sender tx = address
                         \/ Transaction.recipient tx = address)
              (pending_transactions bc)) in
  (sort_desc (confirmed ++ pending), set_chain chain' bc).

(** The dictionary [get_network_stats] returns. *)
Record NetworkStats := mkStats {
  block_count : nat;
  latest_block : option BlockDict;
  stat_pending_transactions : nat;
  average_block_time : Qc;
  tps : Qc;
  account_count : nat;
  stat_difficulty : nat
}.

(** The timestamp of [self.chain[i]]. *)
Definition timestamp_at (blocks : list Block.t) (i : nat) : Qc :=
  match blocks !! i with
  | Some b => Block.timestamp b
  | None => 0%Qc
  end.

(** [for i in range(1, min(11, len(self.chain))):
       block_times.append(chain[i].timestamp - chain[i-1].timestamp)] *)
Definition block_times (blocks : list Block.t) : list Qc :=
  map (fun i => (timestamp_at blocks i - timestamp_at blocks (i - 1))%Qc)
      (seq 1 (Nat.min 11 (length blocks) - 1)).

Definition Qc_sum (l : list Qc) : Qc := fold_right Qcplus 0%Qc l.

(** [sum(block_times) / len(block_times) if block_times else 0] *)
Definition avg_block_time (blocks : list Block.t) : Qc :=
  match block_times blocks with
  | [] => 0%Qc
  | ts => (Qc_sum ts / Qc_of_Z (Z.of_nat (length ts)))%Qc
  end.

(** [Blockchain.get_network_stats] *)
Definition get_network_stats (bc : Blockchain) : NetworkStats :=
  let avg := avg_block_time (chain bc) in
  let latest_tx_count :=
    match get_latest_block bc with
    | Some b => length (Block.transactions b)
    | None => O
    end in
  let tps :=
    if decide (0 < avg)%Qc
    then (Qc_of_Z (Z.of_nat latest_tx_count) / avg)%Qc
    else 0%Qc in
  mkStats (length (chain bc))
    (Block_to_dict <$> get_latest_block bc)
    (length (pending_transactions bc))
    avg tps
    (size (accounts bc))
    (match get_latest_block bc with
     | Some b => Block.difficulty b
     | None => O
     end).

(** The reward transaction [mine_pending_transactions] appends: the one its
    constructor call returns, an amount of 5.0 and the fee of the default gas
    arguments, with the status assigned after the call. *)
Definition reward_tx (uuid : string) (now : Qc) (miner_address : string)
  : Transaction.t :=
  Transaction.mk uuid SYSTEM_ADDRESS miner_address (Float.of_int 5)
    (Float.div (Float.of_int 105000) (Float.of_int 1000000000)) [] 0 now
    Confirmed None 5 21000 21000.

(** ** Hashing, mining and validation *)

Section Hashing.

(** [digest c] is the SHA-256 hex digest of the JSON text of the six
    fields; [dumps_size] is the byte length of the JSON text of the block
    object's dictionary at the point [Block.__init__] measures it. *)
Variable digest : BlockContent -> string.
Variable dumps_size : BlockContent -> nat -> string -> Z.

(** [Block.calculate_hash] *)
Definition calculate_hash (b : Block.t) : string :=
  digest (Block.content b).

(** [Block.__init__] *)
Definition Block_init (index : Z) (transactions : list TxDict.t)
    (timestamp : Qc) (previous_hash validator : string) (difficulty : nat)
  : Block.t :=
  let c := mkContent index transactions timestamp previous_hash validator 0 in
  let h := digest c in
  Block.mk index transactions timestamp previous_hash validator difficulty
    0 h (dumps_size c difficulty h) (sum_gas_used transactions) 10000000.

(** The [while] loop of [Block.mine_block], run for at most [fuel]
    iterations. *)
Fixpoint mine_loop (fuel : nat) (b : Block.t) : option Block.t :=
  if meets_target b then Some b
  else
    match fuel with
    | O => None
    | S fuel' =>
        let b := Block.set_nonce (Block.nonce b + 1) b in
        let b := Block.set_hash (calculate_hash b) b in
        mine_loop fuel' b
    end.

(** [Block.mine_block(difficulty)] *)
Definition mine_block (fuel : nat) (difficulty : option nat) (b : Block.t)
  : option Block.t :=
  let b :=
    match difficulty with
    | Some d =>
        Block.mk (Block.index b) (Block.transactions b) (Block.timestamp b)
          (Block.previous_hash b) (Block.validator b) d (Block.nonce b)
          (Block.hash b) (Block.size b) (Block.gas_used b) (Block.gas_limit b)
    | None => b
    end in
  mine_loop fuel b.

(** [Blockchain.create_genesis_block]: built, re-hashed and appended; the
    nonce search is not run on it. *)
Definition create_genesis_block (now : Qc) (bc : Blockchain) : Blockchain :=
  let genesis_block := Block_init 0 [] now "0" SYSTEM_ADDRESS 4 in
  let genesis_block := Block.set_hash (calculate_hash genesis_block) genesis_block in
  set_chain (chain bc ++ [genesis_block]) bc.

(** [Blockchain._create_initial_accounts]; [t1], [t2], [t3] are the clock
    readings of the three [Account] constructors. *)
Definition _create_initial_accounts (t1 t2 t3 : Qc) (bc : Blockchain) : Blockchain :=
  let a1 := Account.init t1 "0x1234567890abcdef1234567890abcdef12345678"
    (Some "0xabcdef1234567890abcdef1234567890abcdef1234567890abcdef1234567890")
    (Float.of_int 1000000) in
  let a2 := Account.init t2 "0xabcdef1234567890abcdef1234567890abcdef12"
    (Some "0x1234567890abcdef1234567890abcdef1234567890abcdef1234567890abcdef")
    (Float.of_int 500000) in
  let a3 := Account.init t3 "0x9876543210fedcba9876543210fedcba98765432"
    (Some "0xfedcba9876543210fedcba9876543210fedcba9876543210fedcba9876543210")
    (Float.of_int 750000) in
  set_accounts
    (<[Account.address a3 := a3]>
       (<[Account.address a2 := a2]>
          (<[Account.address a1 := a1]> (accounts bc)))) bc.

(** [Blockchain.__init__] *)
Definition Blockchain_init (t0 t1 t2 t3 : Qc) : Blockchain :=
  _create_initial_accounts t1 t2 t3
    (create_genesis_block t0 (mkBlockchain [] [] ∅)).

(** [Blockchain.mine_pending_transactions].  [uuid] and [now] are drawn by
    the reward transaction's constructor, [block_now] by the block's
    [timestamp=time.time()] argument; [fuel] bounds the nonce search. *)
Definition mine_pending_transactions (fuel : nat) (uuid : string)
    (now block_now : Qc) (miner_address : string) (bc : Blockchain)
  : outcome (option Block.t) * Blockchain :=
  match pending_transactions bc with
  | [] => (Returned None, bc)
  | _ =>
    match Transaction.init uuid now SYSTEM_ADDRESS miner_address
            (Float.of_int 5) Float.zero [] 0 5 21000 with
    | None => (Raised OverflowError, bc)
    | Some reward_tx =>
    let reward_tx := Transaction.set_status Confirmed reward_tx in
    let bc := set_pending (pending_transactions bc ++ [reward_tx]) bc in
    match get_latest_block bc with
    | None => (Raised IndexError, bc)
    | Some latest =>
      let new_block :=
        Block_init (Z.of_nat (length (chain bc)))
          (map Transaction.to_dict (pending_transactions bc))
          block_now (Block.hash latest) miner_address 4 in
      match mine_block fuel None new_block with
      | None => (OutOfFuel, bc)
      | Some new_block =>
        let bc := set_chain (chain bc ++ [new_block]) bc in
        match process_pending (pending_transactions bc)
                (Block.index new_block) (accounts bc) with
        | (pool, accs, Some e) =>
            (Raised e, mkBlockchain (chain bc) pool accs)
        | (_, accs, None) =>
            (Returned (Some new_block), mkBlockchain (chain bc) [] accs)
        end
      end
    end
    end
  end.

(** The loop of [Blockchain.is_chain_valid] from block [i] on, with
    [previous_block] the block at [i - 1]. *)
Fixpoint is_chain_valid_from (previous_block : Block.t) (rest : list Block.t) : bool :=
  match rest with
  | [] => true
  | current_block :: rest' =>
      if negb (String.eqb (Block.hash current_block) (calculate_hash current_block))
      then false
      else if negb (String.eqb (Block.previous_hash current_block)
                               (Block.hash previous_block))
      then false
      else is_chain_valid_from current_block rest'
  end.

(** [Blockchain.is_chain_valid] *)
Definition is_chain_valid (bc : Blockchain) : bool :=
  match chain bc with
  | [] => true
  | genesis :: rest => is_chain_valid_from genesis rest
  end.

(** The ledgers reached from a freshly initialised one by calls of
    [stage_transaction] and [mine_pending_transactions] that return. *)
Inductive produced : Blockchain -> Prop :=
| produced_init t0 t1 t2 t3 :
    produced (Blockchain_init t0 t1 t2 t3)
| produced_stage bc uuid now now' r tx_id bc' :
    produced bc ->
    stage_transaction uuid now now' r bc = (Returned tx_id, bc') ->
    produced bc'
| produced_mine bc fuel uuid now block_now miner_address res bc' :
    produced bc ->
    mine_pending_transactions fuel uuid now block_now
      miner_address bc = (Returned res, bc') ->
    produced bc'.

(** The shape of a produced chain: a genesis block that hashes to its
    stored hash, followed by linked blocks that each meet their target. *)
Definition chain_inv (bc : Blockchain) : Prop :=
  exists genesis rest,
    chain bc = genesis :: rest
    /\ Block.hash genesis = calculate_hash genesis
    /\ is_chain_valid_from genesis rest = true
    /\ Forall (fun b => meets_target b = true) rest.

(** A call on the ledger, with the values it draws. *)
Inductive op :=
| Stage (uuid : string) (now now' : Qc) (r : TxRequest)
| Mine (fuel : nat) (uuid : string) (now block_now : Qc) (miner_address : string)
| GetTransaction (tx_id : string)
| GetAccountTransactions (address : string).

(** The ledger a call leaves behind, whether it returned or raised; nothing
    if the nonce search did not finish. *)
Definition run_op (o : op) (bc : Blockchain) : option Blockchain :=
  match o with
  | Stage uuid now now' r => Some (snd (stage_transaction uuid now now' r bc))
  | Mine fuel uuid now block_now miner_address =>
      match mine_pending_transactions fuel uuid now block_now
              miner_address bc with
      | (OutOfFuel, _) => None
      | (_, bc') => Some bc'
      end
  | GetTransaction tx_id => Some (snd (get_transaction tx_id bc))
  | GetAccountTransactions address =>
      Some (snd (get_account_transactions address bc))
  end.

(** A sequence of calls. *)
Fixpoint run_ops (ops : list op) (bc : Blockchain) : option Blockchain :=
  match ops with
  | [] => Some bc
  | o :: rest =>
      match run_op o bc with
      | Some bc' => run_ops rest bc'
      | None => None
      end
  end.

End Hashing.

(** ** Notions the properties are stated with *)

(** The account map after the recipient check of [add_transaction]. *)
Definition with_recipient (now : Qc) (tx : Transaction.t)
    (accs : gmap string Account.t) : gmap string Account.t :=
  match accs !! Transaction.recipient tx with
  | None =>
      <[Transaction.recipient tx :=
          Account.init now (Transaction.recipient tx) None Float.zero]> accs
  | Some _ => accs
  end.

(** A post-hoc assignment to one of the stored fields of a block:
    [block.index = i], [block.timestamp = t], [block.previous_hash = h],
    [block.nonce = n], or [block.transactions[k] = d]. *)
Inductive mutation :=
| SetIndex (i : Z)
| SetTimestamp (t : Qc)
| SetPreviousHash (h : string)
| SetNonce (n : Z)
| SetTransaction (k : nat) (d : TxDict.t).

(** The block after the assignment. *)
Definition mutate (m : mutation) (b : Block.t) : Block.t :=
  match m with
  | SetIndex i => Block.set_index i b
  | SetTimestamp t => Block.set_timestamp t b
  | SetPreviousHash h => Block.set_previous_hash h b
  | SetNonce n => Block.set_nonce n b
  | SetTransaction k d =>
      Block.set_transactions (<[k := d]> (Block.transactions b)) b
  end.

(** The fields the nonce search leaves alone. *)
Definition same_header (b b' : Block.t) : Prop :=
  Block.index b' = Block.index b
  /\ Block.transactions b' = Block.transactions b
  /\ Block.timestamp b' = Block.timestamp b
  /\ Block.previous_hash b' = Block.previous_hash b
  /\ Block.validator b' = Block.validator b
  /\ Block.difficulty b' = Block.difficulty b.

(** The balances of the account ledger, address by address. *)
Definition balances (accs : gmap string Account.t) : gmap string Float.t :=
  Account.balance <$> accs.

(** The ledger application of one transaction as a transfer between
    balances: unless the sender is the system address, the sender's balance
    becomes [balance - (amount + fee)]; then the recipient's becomes
    [balance + amount].  The fee is added to no balance. *)
Definition transfer (tx : Transaction.t) (bal : gmap string Float.t)
  : gmap string Float.t :=
  let bal :=
    if decide (Transaction.sender tx = SYSTEM_ADDRESS) then bal
    else
      alter (fun b =>
               Float.sub b
                 (Float.add (Transaction.amount tx) (Transaction.fee tx)))
        (Transaction.sender tx) bal in
  alter (fun b => Float.add b (Transaction.amount tx))
    (Transaction.recipient tx) bal.

(** The transfers of a pool, one after the other. *)
Definition transfers (txs : list Transaction.t) (bal : gmap string Float.t)
  : gmap string Float.t :=
  fold_left (fun bal tx => transfer tx bal) txs bal.

(** [sum(xs)] over floats. *)
Definition Float_sum (xs : list Float.t) : Float.t :=
  fold_left Float.add xs Float.zero.

(** What the ledger application of a transaction subtracts from the
    balance of its sender, where it subtracts anything. *)
Definition debit_of (tx : Transaction.t) : option Float.t :=
  if decide (Transaction.sender tx = SYSTEM_ADDRESS) then None
  else Some (Float.add (Transaction.amount tx) (Transaction.fee tx)).

(** The transactions of a pool that are not rewards. *)
Definition transfers_of (txs : list Transaction.t) : list Transaction.t :=
  filter (fun tx => Transaction.sender tx <> SYSTEM_ADDRESS) txs.

(** The sender of a transaction is the system address or has an account. *)
Definition sender_known (accs : gmap string Account.t) (tx : Transaction.t) : Prop :=
  Transaction.sender tx = SYSTEM_ADDRESS \/ is_Some (accs !! Transaction.sender tx).

(** The average block time as the specification words it: the mean of the
    differences between consecutive timestamps of the most recent blocks, at
    most ten of them, and 0 for fewer than two blocks. *)
Definition latest_blocks (blocks : list Block.t) : list Block.t :=
  drop (length blocks - 10) blocks.

(** The differences between consecutive timestamps. *)
Fixpoint timestamp_deltas (blocks : list Block.t) : list Qc :=
  match blocks with
  | b1 :: ((b2 :: _) as rest) =>
      (Block.timestamp b2 - Block.timestamp b1)%Qc :: timestamp_deltas rest
  | _ => []
  end.

(** Their mean over the latest blocks. *)
Definition avg_block_time_of_latest (blocks : list Block.t) : Qc :=
  match timestamp_deltas (latest_blocks blocks) with
  | [] => 0%Qc
  | ds => (Qc_sum ds / Qc_of_Z (Z.of_nat (length ds)))%Qc
  end.

(** ** A collision-free digest to run the model with

    The statements below hold for every [digest]; to evaluate the model, and
    to show that the hypothesis of a collision-free digest can be met, the
    hashed fields are written out one after the other: every field as the
    binary digits of its number in an enumeration of its type, closed by the
    digit 2, every transaction opened by the digit 3, the list closed by the
    digit 4, and the previous hash last, as it is.  The text is preceded by
    [f000] while the block's nonce is below 2 and by [0000] from then on, so
    that the nonce search takes two steps. *)

Global Instance Status_eq_dec : EqDecision Status.
Proof. solve_decision. Defined.

Global Instance spec_float_eq_dec : EqDecision spec_float.
Proof. solve_decision. Defined.

(** The floats, numbered through their constructors' arguments. *)
Definition spec_float_to_sum (x : spec_float)
  : bool + (bool + (unit + bool * positive * Z)) :=
  match x with
  | S754_zero s => inl s
  | S754_infinity s => inr (inl s)
  | S754_nan => inr (inr (inl tt))
  | S754_finite s m e => inr (inr (inr (s, m, e)))
  end.

Definition spec_float_of_sum
    (x : bool + (bool + (unit + bool * positive * Z))) : spec_float :=
  match x with
  | inl s => S754_zero s
  | inr (inl s) => S754_infinity s
  | inr (inr (inl _)) => S754_nan
  | inr (inr (inr (s, m, e))) => S754_finite s m e
  end.

Global Instance spec_float_countable : Countable spec_float.
Proof.
  refine (inj_countable' spec_float_to_sum spec_float_of_sum _).
  intros []; reflexivity.
Defined.

(** The statuses, numbered. *)
Definition Status_to_nat (s : Status) : nat :=
  match s with Pending => 0 | Confirmed => 1 | Failed => 2 end.

Definition Status_of_nat (n : nat) : option Status :=
  match n with
  | 0%nat => Some Pending
  | 1%nat => Some Confirmed
  | 2%nat => Some Failed
  | _ => None
  end.

Global Instance Status_countable : Countable Status.
Proof.
  refine (inj_countable Status_to_nat Status_of_nat _).
  intros []; reflexivity.
Defined.

(** The binary digits of a positive number, least significant first, without
    its leading one. *)
Fixpoint pos_digits (p : positive) : string :=
  match p with
  | xH => EmptyString
  | xO p' => String "0" (pos_digits p')
  | xI p' => String "1" (pos_digits p')
  end.

(** One field, followed by the text [k] that comes after it. *)
Definition ser `{Countable A} (x : A) (k : string) : string :=
  pos_digits (encode x) +:+ String "2" k.

(** The thirteen entries of a transaction dictionary. *)
Definition ser_tx (d : TxDict.t) (k : string) : string :=
  ser (TxDict.id d) (ser (TxDict.sender d) (ser (TxDict.recipient d)
  (ser (TxDict.amount d) (ser (TxDict.fee d) (ser (TxDict.nonce d)
  (ser (TxDict.timestamp d) (ser (TxDict.data d) (ser (TxDict.status d)
  (ser (TxDict.block_number d) (ser (TxDict.gas_used d)
  (ser (TxDict.gas_price d) (ser (TxDict.gas_limit d) k)))))))))))).

(** The list of transactions. *)
Fixpoint ser_txs (ds : list TxDict.t) (k : string) : string :=
  match ds with
  | [] => String "4" k
  | d :: rest => String "3" (ser_tx d (ser_txs rest k))
  end.

(** The digest: the prefix chosen by the nonce, then the fields. *)
Definition toy_digest (c : BlockContent) : string :=
  String (if (c_nonce c <? 2)%Z then "f"%char else "0"%char)
    (String "0" (String "0" (String "0"
      (ser (c_index c) (ser_txs (c_transactions c) (ser (c_timestamp c)
      (ser (c_validator c) (ser (c_nonce c) (c_previous_hash c))))))))).

(** A stand-in for the byte length of the JSON text of a block. *)
Definition toy_size (c : BlockContent) (difficulty : nat) (h : string) : Z :=
  Z.of_nat (String.length h) + 200.

(** A digest short enough to run a long chain with: four zeros and the
    binary digits of the block index. *)
Definition index_digest (c : BlockContent) : string :=
  String "0" (String "0" (String "0" (String "0"
    (pos_digits (encode (c_index c)))))).

(** ** A run of the model

    The ledger is initialised at time 0, one transfer of 100 from the first
    to the second initial account is staged at time 1, and the third initial
    account mines at time 2. *)

(** The three initial accounts. *)
Definition ADDR1 : string := "0x1234567890abcdef1234567890abcdef12345678".

Definition ADDR2 : string := "0xabcdef1234567890abcdef1234567890abcdef12".

Definition ADDR3 : string := "0x9876543210fedcba9876543210fedcba98765432".

(** The transfer, the ledger before and after staging it, and the mining
    call with the ledger it leaves. *)
Definition demo_request : TxRequest :=
  mkTxRequest ADDR1 ADDR2 (Float.of_int 100) [] 5 21000.

Definition demo_fresh : Blockchain :=
  Blockchain_init toy_digest toy_size 0%Qc 0%Qc 0%Qc 0%Qc.

Definition demo_staged : Blockchain :=
  snd (stage_transaction "0xa" 1%Qc 1%Qc demo_request demo_fresh).

Definition demo_mine : outcome (option Block.t) * Blockchain :=
  mine_pending_transactions toy_digest toy_size 10 "0xb" 2%Qc 2%Qc ADDR3
    demo_staged.

Definition demo_mined : Blockchain := snd demo_mine.

(** A transfer of 2000000 from the first initial account, which holds
    1000000, to an address without an account. *)
Definition demo_overdraft : TxRequest :=
  mkTxRequest ADDR1 "0xnew" (Float.of_int 2000000) [] 5 21000.



(** One transfer staged and mined, the block stamped [block_now]. *)
Definition demo_round (bc : Blockchain) (block_now : Z) : Blockchain :=
  snd (mine_pending_transactions index_digest toy_size 0 "0xb" 0%Qc
         (Qc_of_Z block_now) ADDR3
         (snd (stage_transaction "0xa" 0%Qc 0%Qc demo_request bc))).

(** Twelve blocks: the genesis block at time 0, ten blocks one second apart,
    and an eleventh mined ninety seconds after the tenth. *)
Definition demo_long : Blockchain :=
  fold_left demo_round [1; 2; 3; 4; 5; 6; 7; 8; 9; 10; 100]
    (Blockchain_init index_digest toy_size 0%Qc 0%Qc 0%Qc 0%Qc).

(** ** Notions for the further properties *)

(** A transaction dictionary without its block number, and a block whose
    dictionaries are without theirs. *)
Definition forget_block_number (d : TxDict.t) : TxDict.t :=
  TxDict.mk (TxDict.id d) (TxDict.sender d) (TxDict.recipient d)
    (TxDict.amount d) (TxDict.fee d) (TxDict.nonce d) (TxDict.timestamp d)
    (TxDict.data d) (TxDict.status d) None (TxDict.gas_used d)
    (TxDict.gas_price d) (TxDict.gas_limit d).

Definition forget_block_numbers (b : Block.t) : Block.t :=
  Block.set_transactions (map forget_block_number (Block.transactions b)) b.

(** An assignment to one of the block fields that [calculate_hash] does not
    read: [difficulty], [size], [gas_used] or [gas_limit]. *)
Inductive unhashed_mutation :=
| SetDifficulty (d : nat)
| SetSize (z : Z)
| SetGasUsed (z : Z)
| SetGasLimit (z : Z).

(** The block after such an assignment. *)
Definition mutate_unhashed (u : unhashed_mutation) (b : Block.t) : Block.t :=
  match u with
  | SetDifficulty d =>
      Block.mk (Block.index b) (Block.transactions b) (Block.timestamp b)
        (Block.previous_hash b) (Block.validator b) d (Block.nonce b)
        (Block.hash b) (Block.size b) (Block.gas_used b) (Block.gas_limit b)
  | SetSize z =>
      Block.mk (Block.index b) (Block.transactions b) (Block.timestamp b)
        (Block.previous_hash b) (Block.validator b) (Block.difficulty b)
        (Block.nonce b) (Block.hash b) z (Block.gas_used b) (Block.gas_limit b)
  | SetGasUsed z =>
      Block.mk (Block.index b) (Block.transactions b) (Block.timestamp b)
        (Block.previous_hash b) (Block.validator b) (Block.difficulty b)
        (Block.nonce b) (Block.hash b) (Block.size b) z (Block.gas_limit b)
  | SetGasLimit z =>
      Block.mk (Block.index b) (Block.transactions b) (Block.timestamp b)
        (Block.previous_hash b) (Block.validator b) (Block.difficulty b)
        (Block.nonce b) (Block.hash b) (Block.size b) (Block.gas_used b) z
  end.

(** The block the nonce search holds after [k] iterations of its loop: the
    block itself before the first, and from then on the block with its nonce
    raised by [k] and the hash of that. *)
Definition nonce_candidate (digest : BlockContent -> string) (b : Block.t)
    (k : nat) : Block.t :=
  match k with
  | O => b
  | S _ =>
      let b' := Block.set_nonce (Block.nonce b + Z.of_nat k) b in
      Block.set_hash (calculate_hash digest b') b'
  end.

(** The calls that are meant to change the ledger. *)
Definition is_update (o : op) : bool :=
  match o with
  | Stage _ _ _ _ | Mine _ _ _ _ _ => true
  | GetTransaction _ | GetAccountTransactions _ => false
  end.

(** The block [mine_pending_transactions] constructs before the search. *)
Definition candidate_block (digest : BlockContent -> string)
    (dumps_size : BlockContent -> nat -> string -> Z)
    (uuid : string) (now block_now : Qc)
    (miner_address : string) (bc : Blockchain) (latest : Block.t) : Block.t :=
  Block_init digest dumps_size (Z.of_nat (length (chain bc)))
    (map Transaction.to_dict
       (pending_transactions bc ++ [reward_tx uuid now miner_address]))
    block_now (Block.hash latest) miner_address 4.

(** The blocks of a chain sit at their indices. *)
Definition indexed (blocks : list Block.t) : Prop :=
  forall (i : nat) (b : Block.t),
    blocks !! i = Some b -> Block.index b = Z.of_nat i.

(** The order [get_account_transactions] sorts by: the later record first. *)
Definition later_first (x y : TxDict.t) : Prop :=
  (TxDict.timestamp y <= TxDict.timestamp x)%Qc.

(** The records of the chain that involve an address, each with the index of
    its block as block number, in chain order. *)
Definition confirmed_records (address : string) (blocks : list Block.t)
  : list TxDict.t :=
  flat_map
    (fun b =>
       map (TxDict.set_block_number (Block.index b))
         (filter (fun d => dict_involves address d = true)
                 (Block.transactions b)))
    blocks.

(** The dictionaries of the waiting transactions that involve an address. *)
Definition pending_records (address : string) (bc : Blockchain)
  : list TxDict.t :=
  map Transaction.to_dict
    (filter (fun tx => Transaction.sender tx = address
                       \/ Transaction.recipient tx = address)
            (pending_transactions bc)).

(** The waiting transactions of one sender carry increasing nonces, each
    below the nonce of the sender's account. *)
Definition pool_nonces_ordered (bc : Blockchain) : Prop :=
  (forall (i j : nat) (tx1 tx2 : Transaction.t),
     (i < j)%nat ->
     pending_transactions bc !! i = Some tx1 ->
     pending_transactions bc !! j = Some tx2 ->
     Transaction.sender tx1 = Transaction.sender tx2 ->
     Transaction.nonce tx1 < Transaction.nonce tx2)
  /\ Forall
       (fun tx =>
          exists a, accounts bc !! Transaction.sender tx = Some a
                    /\ Transaction.nonce tx < Account.nonce a)
       (pending_transactions bc).

(** ** The HTTP layer ([api_server/api.py])

    The bodies of the endpoints that page through the chain and that submit
    a transaction.  The framework's validation of the query ([limit] from 1
    to 100, [page] from 1) is a hypothesis of the properties; a request
    without [data] behaves as one with empty [data] in every test the code
    makes, and is modelled as such. *)

(** [xs[start:stop]] *)
Definition py_slice {A} (start stop : Z) (xs : list A) : list A :=
  let n := Z.of_nat (length xs) in
  let clamp (i : Z) := if i <? 0 then Z.max (i + n) 0 else Z.min i n in
  drop (Z.to_nat (clamp start)) (take (Z.to_nat (clamp stop)) xs).

(** [xs[(page - 1) * limit : (page - 1) * limit + limit]] *)
Definition page_slice {A} (limit page : Z) (xs : list A) : list A :=
  let start := (page - 1) * limit in
  let stop := start + limit in
  py_slice start stop xs.

(** The dictionary [get_blocks] returns. *)
Record BlocksPage := mkBlocksPage {
  bp_blocks : list BlockDict;
  bp_total : nat;
  bp_page : Z;
  bp_limit : Z
}.

(** [get_blocks]: the slice of the chain, turned into dictionaries and
    reversed. *)
Definition api_get_blocks (limit page : Z) (bc : Blockchain) : BlocksPage :=
  mkBlocksPage
    (rev (map Block_to_dict (page_slice limit page (chain bc))))
    (length (chain bc)) page limit.

(** The dictionary [get_transactions] returns. *)
Record TransactionsPage := mkTransactionsPage {
  tp_transactions : list TxDict.t;
  tp_total : nat;
  tp_page : Z;
  tp_limit : Z
}.

(** The list [get_transactions] collects: the waiting transactions, then the
    records of the blocks from the latest to the first, each a copy with the
    block's index as block number. *)
Definition all_transactions (bc : Blockchain) : list TxDict.t :=
  map Transaction.to_dict (pending_transactions bc)
  ++ flat_map
       (fun block =>
          map (TxDict.set_block_number (Block.index block))
              (Block.transactions block))
       (rev (chain bc)).

(** [get_transactions] *)
Definition api_get_transactions (limit page : Z) (bc : Blockchain)
  : TransactionsPage :=
  mkTransactionsPage (page_slice limit page (all_transactions bc))
    (length (all_transactions bc)) page limit.

(** The answer of [create_transaction]; the error is the exception caught. *)
Inductive TransactionResponse :=
| Success (transaction_hash : string)
| Failure (error : exn).

(** [create_transaction]: stage the request and, the pool being non-empty,
    mine at once with the sender as miner; any exception is caught and
    reported.  Nothing is returned if the nonce search does not finish. *)
Definition api_create_transaction (digest : BlockContent -> string)
    (dumps_size : BlockContent -> nat -> string -> Z)
    (fuel : nat) (uuid : string) (now now' : Qc)
    (reward_uuid : string) (reward_now block_now : Qc)
    (r : TxRequest) (bc : Blockchain)
  : option (TransactionResponse * Blockchain) :=
  match stage_transaction uuid now now' r bc with
  | (Returned tx_hash, bc1) =>
      match pending_transactions bc1 with
      | [] => Some (Success tx_hash, bc1)
      | _ =>
          match mine_pending_transactions digest dumps_size fuel reward_uuid
                  reward_now block_now (req_from r) bc1 with
          | (Returned _, bc2) => Some (Success tx_hash, bc2)
          | (Raised e, bc2) => Some (Failure e, bc2)
          | (OutOfFuel, _) => None
          end
      end
  | (Raised e, bc1) => Some (Failure e, bc1)
  | (OutOfFuel, _) => None
  end.

(** What the ledger application of a pool does to the balance of one
    address: in pool order, each transaction the address sent, unless it is
    the system address, takes [amount + fee], and then each it received
    gives [amount]. *)
Definition settle_one (address : string) (tx : Transaction.t)
    (balance : Float.t) : Float.t :=
  let balance :=
    if decide (Transaction.sender tx = address
               /\ Transaction.sender tx <> SYSTEM_ADDRESS)
    then Float.sub balance
           (Float.add (Transaction.amount tx) (Transaction.fee tx))
    else balance in
  if decide (Transaction.recipient tx = address)
  then Float.add balance (Transaction.amount tx)
  else balance.

Definition settle (address : string) (txs : list Transaction.t)
    (balance : Float.t) : Float.t :=
  fold_left (fun b tx => settle_one address tx b) txs balance.

(** The two calls of the run as a sequence; the mining call of the run made
    for an address without an account; and the sequence with that call. *)
Definition demo_ops : list op :=
  [Stage "0xa" 1%Qc 1%Qc demo_request; Mine 10 "0xb" 2%Qc 2%Qc ADDR3].

Definition demo_stuck : outcome (option Block.t) * Blockchain :=
  mine_pending_transactions toy_digest toy_size 10 "0xb" 2%Qc 2%Qc "0xnobody"
    demo_staged.

Definition demo_stuck_ops : list op :=
  [Stage "0xa" 1%Qc 1%Qc demo_request; Mine 10 "0xb" 2%Qc 2%Qc "0xnobody"].

(** ** Properties *)

(** *** The digest above has no collisions *)

Lemma pos_digits_sep (p q : positive) (s t : string) :
  pos_digits p +:+ String "2" s = pos_digits q +:+ String "2" t ->
  p = q /\ s = t.
Proof.
  revert q; induction p as [p IH | p IH |]; intros [q | q |]; simpl; intros E;
    try discriminate E.
  - injection E as E. destruct (IH _ E) as [-> ->]. auto.
  - injection E as E. destruct (IH _ E) as [-> ->]. auto.
  - injection E as E. auto.
Qed.

Lemma ser_inj `{Countable A} (x y : A) (s t : string) :
  ser x s = ser y t -> x = y /\ s = t.
Proof.
  unfold ser. intros E. apply pos_digits_sep in E as [E ->].
  split; [ exact (encode_inj _ _ E) | reflexivity ].
Qed.

Ltac ser_step E :=
  let E1 := fresh "E" in
  apply ser_inj in E as [E1 E].

Lemma ser_tx_inj (d d' : TxDict.t) (s t : string) :
  ser_tx d s = ser_tx d' t -> d = d' /\ s = t.
Proof.
  destruct d, d'. unfold ser_tx. cbn [TxDict.id TxDict.sender
    TxDict.recipient TxDict.amount TxDict.fee TxDict.nonce TxDict.timestamp
    TxDict.data TxDict.status TxDict.block_number TxDict.gas_used
    TxDict.gas_price TxDict.gas_limit].
  intros E. do 13 ser_step E. subst. auto.
Qed.

Lemma ser_txs_inj (ds ds' : list TxDict.t) (s t : string) :
  ser_txs ds s = ser_txs ds' t -> ds = ds' /\ s = t.
Proof.
  revert ds'; induction ds as [| d ds IH]; intros [| d' ds']; simpl; intros E;
    try discriminate E.
  - injection E as E. auto.
  - injection E as E. apply ser_tx_inj in E as [-> E].
    destruct (IH _ E) as [-> ->]. auto.
Qed.

Lemma toy_digest_inj (c c' : BlockContent) :
  toy_digest c = toy_digest c' -> c = c'.
Proof.
  destruct c, c'. unfold toy_digest.
  cbn [c_index c_transactions c_timestamp c_previous_hash c_validator c_nonce].
  intros E. injection E as _ E.
  ser_step E. apply ser_txs_inj in E as [E' E]. do 3 ser_step E.
  subst. reflexivity.
Qed.

(** *** Staging *)

Lemma with_recipient_sender now tx accs a :
  accs !! Transaction.sender tx = Some a ->
  with_recipient now tx accs !! Transaction.sender tx = Some a.
Proof.
  intros Hs. unfold with_recipient.
  destruct (accs !! Transaction.recipient tx) eqn:Hr; [exact Hs |].
  rewrite lookup_insert_ne; [exact Hs | congruence].
Qed.

Lemma add_transaction_unknown now tx bc :
  accounts bc !! Transaction.sender tx = None ->
  add_transaction now tx bc = (Raised UnknownSender, bc).
Proof. intros H. unfold add_transaction. rewrite H. reflexivity. Qed.

Lemma add_transaction_known now tx bc a :
  accounts bc !! Transaction.sender tx = Some a ->
  add_transaction now tx bc =
    if Float.ltb (Account.balance a)
         (Float.add (Transaction.amount tx) (Transaction.fee tx))
    then (Raised InsufficientBalance,
          set_accounts (with_recipient now tx (accounts bc)) bc)
    else (Returned (Transaction.id tx),
          mkBlockchain (chain bc)
            (pending_transactions bc
               ++ [Transaction.set_nonce (Account.nonce a) tx])
            (<[Transaction.sender tx :=
                 Account.set_nonce (Account.nonce a + 1) a]>
               (with_recipient now tx (accounts bc)))).
Proof.
  intros H. unfold add_transaction. rewrite H.
  fold (with_recipient now tx (accounts bc)).
  rewrite (with_recipient_sender now tx _ a H). reflexivity.
Qed.

(** The gas the constructor assigns. *)
Lemma init_gas (data : pystr) (gas_limit : Z) :
  Z.min
    match data with
    | [] => 21000
    | _ => 21000 + Z.of_nat (length data) * 68
    end gas_limit
  = Z.min gas_limit (21000 + 68 * Z.of_nat (length data)).
Proof. destruct data as [| c data]; cbn [length]; lia. Qed.

(** What a constructor call that returns has built. *)
Lemma init_returns uuid now sender recipient amount fee data nonce
    gas_price gas_limit tx :
  Transaction.init uuid now sender recipient amount fee data nonce
    gas_price gas_limit = Some tx ->
  let gas_used := Z.min gas_limit (21000 + 68 * Z.of_nat (length data)) in
  Transaction.fee_of gas_used gas_price = Some (Transaction.fee tx)
  /\ tx = Transaction.mk uuid sender recipient amount (Transaction.fee tx)
            data nonce now Pending None gas_price gas_limit gas_used.
Proof.
  unfold Transaction.init. rewrite init_gas. cbv zeta.
  destruct (Transaction.fee_of _ gas_price) as [f |]; [| discriminate].
  intros [= <-]. split; reflexivity.
Qed.

(** The constructor raises exactly when the fee cannot be computed. *)
Lemma init_raises uuid now sender recipient amount fee data nonce
    gas_price gas_limit :
  Transaction.init uuid now sender recipient amount fee data nonce
    gas_price gas_limit = None
  <-> Transaction.fee_of
        (Z.min gas_limit (21000 + 68 * Z.of_nat (length data))) gas_price
      = None.
Proof.
  unfold Transaction.init. rewrite init_gas.
  destruct (Transaction.fee_of _ gas_price); split; congruence.
Qed.

(** The constructor call of [mine_pending_transactions] returns, and the
    reward transaction is what it returns with the status assigned. *)
Lemma reward_tx_constructed uuid now miner_address :
  Transaction.init uuid now SYSTEM_ADDRESS miner_address (Float.of_int 5)
    Float.zero [] 0 5 21000
  = Some (Transaction.set_status Pending (reward_tx uuid now miner_address))
  /\ Transaction.set_status Confirmed
       (Transaction.set_status Pending (reward_tx uuid now miner_address))
     = reward_tx uuid now miner_address.
Proof.
  split; [| reflexivity]. unfold Transaction.init, Transaction.fee_of.
  change (Z.min 21000 21000 * 5) with 105000.
  assert (H : Float.int_to_float 105000 = Some (Float.of_int 105000))
    by (vm_compute; reflexivity).
  rewrite H. reflexivity.
Qed.

(** Staging is [add_transaction] on the transaction constructed. *)
Lemma stage_constructed uuid now now' (r : TxRequest) (bc : Blockchain) tx :
  Transaction.init uuid now (req_from r) (req_to r) (req_amount r)
    Float.zero (req_data r) 0 (req_gas_price r) (req_gas_limit r) = Some tx ->
  stage_transaction uuid now now' r bc = add_transaction now' tx bc
  /\ Transaction.id tx = uuid
  /\ Transaction.sender tx = req_from r
  /\ Transaction.recipient tx = req_to r
  /\ Transaction.amount tx = req_amount r.
Proof.
  intros Hi. unfold stage_transaction. rewrite Hi.
  apply init_returns in Hi as [_ ->]. repeat split; reflexivity.
Qed.

(** Staging raises [OverflowError] exactly when the constructor does, and
    then it has not touched the ledger. *)
Lemma stage_overflow uuid now now' (r : TxRequest) (bc : Blockchain) :
  Transaction.init uuid now (req_from r) (req_to r) (req_amount r)
    Float.zero (req_data r) 0 (req_gas_price r) (req_gas_limit r) = None ->
  stage_transaction uuid now now' r bc = (Raised OverflowError, bc).
Proof. intros Hi. unfold stage_transaction. rewrite Hi. reflexivity. Qed.

(** Staging raises [OverflowError] and leaves the ledger alone, or it is
    [add_transaction] on the transaction constructed. *)
Lemma stage_cases uuid now now' (r : TxRequest) (bc : Blockchain) :
  stage_transaction uuid now now' r bc = (Raised OverflowError, bc)
  \/ exists tx,
       Transaction.init uuid now (req_from r) (req_to r) (req_amount r)
         Float.zero (req_data r) 0 (req_gas_price r) (req_gas_limit r)
       = Some tx
       /\ stage_transaction uuid now now' r bc = add_transaction now' tx bc
       /\ Transaction.id tx = uuid
       /\ Transaction.sender tx = req_from r
       /\ Transaction.recipient tx = req_to r
       /\ Transaction.amount tx = req_amount r.
Proof.
  destruct (Transaction.init uuid now (req_from r) (req_to r) (req_amount r)
              Float.zero (req_data r) 0 (req_gas_price r) (req_gas_limit r))
    as [tx |] eqn:Hi.
  - right. exists tx. split; [reflexivity |].
    apply (stage_constructed uuid now now' r bc tx Hi).
  - left. apply stage_overflow, Hi.
Qed.

(** A staging call that did not raise [OverflowError], as the call of
    [add_transaction] on the transaction [tx] that was constructed. *)
Ltac staged Hst tx Hfields :=
  match type of Hst with
  | stage_transaction ?u ?n ?n' ?r ?bc = _ =>
      let Hc := fresh "Hc" in
      destruct (stage_cases u n n' r bc) as [Hc | (tx & _ & Hc & Hfields)];
      [rewrite Hc in Hst; discriminate Hst | rewrite Hc in Hst; clear Hc]
  end.

Lemma add_transaction_no_overflow now tx bc :
  fst (add_transaction now tx bc) <> Raised OverflowError.
Proof.
  destruct (accounts bc !! Transaction.sender tx) as [a |] eqn:Hs.
  - rewrite (add_transaction_known now tx bc a Hs).
    destruct (Float.ltb _ _); discriminate.
  - rewrite (add_transaction_unknown now tx bc Hs). discriminate.
Qed.

(** What a staging call that returns did. *)
Lemma stage_returned uuid now now' (r : TxRequest) (bc : Blockchain) tx_id bc' :
  stage_transaction uuid now now' r bc = (Returned tx_id, bc') ->
  exists tx a,
    Transaction.init uuid now (req_from r) (req_to r) (req_amount r)
      Float.zero (req_data r) 0 (req_gas_price r) (req_gas_limit r) = Some tx
    /\ Transaction.id tx = uuid
    /\ Transaction.sender tx = req_from r
    /\ Transaction.recipient tx = req_to r
    /\ Transaction.amount tx = req_amount r
    /\ Transaction.status tx = Pending
    /\ Transaction.block_number tx = None
    /\ accounts bc !! req_from r = Some a
    /\ Float.ltb (Account.balance a)
         (Float.add (Transaction.amount tx) (Transaction.fee tx)) = false
    /\ tx_id = uuid
    /\ bc' = mkBlockchain (chain bc)
               (pending_transactions bc
                  ++ [Transaction.set_nonce (Account.nonce a) tx])
               (<[req_from r := Account.set_nonce (Account.nonce a + 1) a]>
                  (with_recipient now' tx (accounts bc))).
Proof.
  destruct (Transaction.init uuid now (req_from r) (req_to r) (req_amount r)
              Float.zero (req_data r) 0 (req_gas_price r) (req_gas_limit r))
    as [tx |] eqn:Hi;
    [| rewrite (stage_overflow uuid now now' r bc Hi); discriminate].
  destruct (stage_constructed uuid now now' r bc tx Hi)
    as (-> & Hid & Hsender & Hrecipient & Hamount).
  intros Hrun. exists tx.
  destruct (accounts bc !! Transaction.sender tx) as [a |] eqn:Hs.
  - rewrite (add_transaction_known now' tx bc a Hs) in Hrun.
    destruct (Float.ltb _ _) eqn:Hlt in Hrun; [discriminate Hrun |].
    injection Hrun as <- <-. exists a. rewrite <- Hsender.
    apply init_returns in Hi as [_ Htx].
    repeat split; try assumption; try reflexivity.
    + rewrite Htx. reflexivity.
    + rewrite Htx. reflexivity.
  - rewrite (add_transaction_unknown now' tx bc Hs) in Hrun. discriminate Hrun.
Qed.




(** C10. When staging raises the insufficient-balance error and the
    recipient had no account, the recipient has one afterwards, with balance
    zero; the chain, the pending pool and the sender's account (its nonce
    included) are as before. *)
Theorem failed_staging_creates_recipient uuid now now' (r : TxRequest)
    (bc bc' : Blockchain) :
  stage_transaction uuid now now' r bc = (Raised InsufficientBalance, bc') ->
  accounts bc !! req_to r = None ->
  (exists acc, accounts bc' !! req_to r = Some acc
               /\ Account.balance acc = Float.zero /\ Account.nonce acc = 0)
  /\ accounts bc' !! req_from r = accounts bc !! req_from r
  /\ pending_transactions bc' = pending_transactions bc
  /\ chain bc' = chain bc.
Proof.
  destruct (Transaction.init uuid now (req_from r) (req_to r) (req_amount r)
              Float.zero (req_data r) 0 (req_gas_price r) (req_gas_limit r))
    as [tx |] eqn:Hi;
    [| rewrite (stage_overflow uuid now now' r bc Hi); discriminate].
  destruct (stage_constructed uuid now now' r bc tx Hi)
    as (-> & _ & <- & <- & _).
  intros Hrun Hr.
  destruct (accounts bc !! Transaction.sender tx) as [a |] eqn:Hs.
  - rewrite (add_transaction_known now' tx bc a Hs) in Hrun.
    destruct (Float.ltb _ _) in Hrun; [| discriminate Hrun].
    injection Hrun as <-. cbn [accounts set_accounts pending_transactions chain].
    split; [| split; [| split]]; try reflexivity.
    + unfold with_recipient. rewrite Hr, lookup_insert_eq.
      eexists; split; [reflexivity | split; reflexivity].
    + apply (with_recipient_sender now' tx _ a Hs).
  - rewrite (add_transaction_unknown now' tx bc Hs) in Hrun. discriminate Hrun.
Qed.

(** *** Mining and validation *)

Lemma mutate_hash m b : Block.hash (mutate m b) = Block.hash b.
Proof. destruct m; reflexivity. Qed.


(** Mining, with the reward transaction its constructor call returns. *)
Lemma mine_pending_transactions_reward digest dumps_size
    fuel uuid now block_now miner_address (bc : Blockchain) :
  mine_pending_transactions digest dumps_size fuel uuid now block_now
    miner_address bc
  = match pending_transactions bc with
    | [] => (Returned None, bc)
    | _ =>
      let reward_tx := reward_tx uuid now miner_address in
      let bc := set_pending (pending_transactions bc ++ [reward_tx]) bc in
      match get_latest_block bc with
      | None => (Raised IndexError, bc)
      | Some latest =>
        let new_block :=
          Block_init digest dumps_size (Z.of_nat (length (chain bc)))
            (map Transaction.to_dict (pending_transactions bc))
            block_now (Block.hash latest) miner_address 4 in
        match mine_block digest fuel None new_block with
        | None => (OutOfFuel, bc)
        | Some new_block =>
          let bc := set_chain (chain bc ++ [new_block]) bc in
          match process_pending (pending_transactions bc)
                  (Block.index new_block) (accounts bc) with
          | (pool, accs, Some e) =>
              (Raised e, mkBlockchain (chain bc) pool accs)
          | (_, accs, None) =>
              (Returned (Some new_block), mkBlockchain (chain bc) [] accs)
          end
        end
      end
    end.
Proof.
  unfold mine_pending_transactions.
  destruct (pending_transactions bc) as [| tx0 txs]; [reflexivity |].
  destruct (reward_tx_constructed uuid now miner_address) as [-> _].
  reflexivity.
Qed.

Section Chain.

Variable digest : BlockContent -> string.
Variable dumps_size : BlockContent -> nat -> string -> Z.

Lemma mine_loop_spec fuel b b' :
  mine_loop digest fuel b = Some b' ->
  Block.hash b = calculate_hash digest b ->
  Block.hash b' = calculate_hash digest b'
  /\ meets_target b' = true
  /\ same_header b b'.
Proof.
  revert b; induction fuel as [| fuel IH]; intros b; simpl;
    destruct (meets_target b) eqn:Ht; intros Hrun Hh; try discriminate Hrun.
  - injection Hrun as <-. unfold same_header; auto 10.
  - injection Hrun as <-. unfold same_header; auto 10.
  - apply IH in Hrun; [| reflexivity].
    destruct Hrun as (H1 & H2 & H3). unfold same_header in *. cbn in H3. auto.
Qed.

Lemma valid_from_cons prev b rest :
  is_chain_valid_from digest prev (b :: rest) = true <->
  Block.hash b = calculate_hash digest b
  /\ Block.previous_hash b = Block.hash prev
  /\ is_chain_valid_from digest b rest = true.
Proof.
  cbn [is_chain_valid_from].
  destruct (String.eqb_spec (Block.hash b) (calculate_hash digest b));
    destruct (String.eqb_spec (Block.previous_hash b) (Block.hash prev));
    cbn [negb]; split; try discriminate; try tauto.
Qed.

Lemma valid_from_snoc prev l p b :
  is_chain_valid_from digest prev l = true ->
  list.last (prev :: l) = Some p ->
  Block.hash b = calculate_hash digest b ->
  Block.previous_hash b = Block.hash p ->
  is_chain_valid_from digest prev (l ++ [b]) = true.
Proof.
  revert prev; induction l as [| x l IH]; intros prev Hv Hl Hh Hp.
  - injection Hl as <-. cbn [app]. apply valid_from_cons. auto.
  - apply valid_from_cons in Hv as (H1 & H2 & H3).
    cbn [app]. apply valid_from_cons. repeat split; auto.
Qed.

Lemma valid_from_hashes prev l :
  is_chain_valid_from digest prev l = true ->
  Forall (fun b => Block.hash b = calculate_hash digest b) l.
Proof.
  revert prev; induction l as [| x l IH]; intros prev Hv; constructor.
  - apply valid_from_cons in Hv. tauto.
  - apply valid_from_cons in Hv as (_ & _ & Hv). eauto.
Qed.

(** What a call of [mine_pending_transactions] that returns a block did. *)
Lemma mine_returns_block fuel uuid now block_now miner_address bc b bc' :
  mine_pending_transactions digest dumps_size fuel uuid now block_now
    miner_address bc = (Returned (Some b), bc') ->
  let pool := pending_transactions bc ++ [reward_tx uuid now miner_address] in
  pending_transactions bc <> []
  /\ (exists latest,
        list.last (chain bc) = Some latest
        /\ mine_loop digest fuel
             (Block_init digest dumps_size (Z.of_nat (length (chain bc)))
                (map Transaction.to_dict pool) block_now (Block.hash latest)
                miner_address 4) = Some b)
  /\ chain bc' = chain bc ++ [b]
  /\ pending_transactions bc' = []
  /\ (exists pool',
        process_pending pool (Block.index b) (accounts bc)
        = (pool', accounts bc', None)).
Proof.
  intros Hrun pool. rewrite mine_pending_transactions_reward in Hrun.
  destruct (pending_transactions bc) as [| tx0 txs] eqn:Hp;
    [discriminate Hrun |].
  unfold get_latest_block, mine_block in Hrun.
  cbn [chain set_pending pending_transactions accounts set_chain] in Hrun.
  fold pool in Hrun.
  destruct (list.last (chain bc)) as [latest |] eqn:Hl; [| discriminate Hrun].
  destruct (mine_loop digest fuel _) as [nb |] eqn:Hm; [| discriminate Hrun].
  destruct (process_pending pool (Block.index nb) (accounts bc))
    as [[pool' accs] [e |]] eqn:Hpp; [discriminate Hrun |].
  injection Hrun as <- <-. cbn [chain pending_transactions accounts].
  split; [discriminate |]. split; [eauto |]. split; [reflexivity |].
  split; [reflexivity |]. eauto.
Qed.

Lemma mine_returns_none fuel uuid now block_now miner_address bc bc' :
  mine_pending_transactions digest dumps_size fuel uuid now block_now
    miner_address bc = (Returned None, bc') ->
  bc' = bc.
Proof.
  rewrite mine_pending_transactions_reward. cbv zeta.
  destruct (pending_transactions bc) as [| tx0 txs] eqn:Hp.
  - intros [= <-]. reflexivity.
  - destruct (get_latest_block _); [| discriminate].
    destruct (mine_block _ _ _ _); [| discriminate].
    destruct (process_pending _ _ _) as [[? ?] [? |]]; discriminate.
Qed.

Lemma stage_chain uuid now now' r bc out bc' :
  stage_transaction uuid now now' r bc = (out, bc') -> chain bc' = chain bc.
Proof.
  unfold stage_transaction, add_transaction.
  repeat (match goal with
          | |- context [match ?x with _ => _ end] => destruct x
          end); intros [= <- <-]; reflexivity.
Qed.

Lemma produced_chain_inv bc : produced digest dumps_size bc -> chain_inv digest bc.
Proof.
  induction 1 as [t0 t1 t2 t3
                 | bc uuid now now' r tx_id bc' Hp IH Hst
                 | bc fuel uuid now block_now miner res bc' Hp IH Hm].
  - eexists _, []. cbn. repeat split; auto.
  - destruct IH as (g & rest & Hc & Hg & Hv & Ht).
    exists g, rest. rewrite (stage_chain _ _ _ _ _ _ _ Hst). auto.
  - destruct res as [b |].
    + destruct (mine_returns_block _ _ _ _ _ _ _ _ Hm)
        as (_ & (latest & Hl & Hloop) & Hc' & _ & _).
      destruct IH as (g & rest & Hc & Hg & Hv & Ht).
      apply mine_loop_spec in Hloop; [| reflexivity].
      destruct Hloop as (Hh & Hmt & Hhd).
      exists g, (rest ++ [b]). rewrite Hc', Hc. repeat split; auto.
      * rewrite Hc in Hl. eapply valid_from_snoc; eauto.
        destruct Hhd as (_ & _ & _ & -> & _). reflexivity.
      * apply Forall_app; split; auto.
    + apply mine_returns_none in Hm. subst. exact IH.
Qed.

Lemma chain_inv_valid bc : chain_inv digest bc -> is_chain_valid digest bc = true.
Proof.
  intros (g & rest & Hc & _ & Hv & _). unfold is_chain_valid. rewrite Hc.
  exact Hv.
Qed.

Lemma valid_from_detects prev l b :
  b ∈ l -> Block.hash b <> calculate_hash digest b ->
  is_chain_valid_from digest prev l = false.
Proof.
  intros Hin Hne.
  destruct (is_chain_valid_from digest prev l) eqn:Hv; [| reflexivity].
  apply valid_from_hashes in Hv.
  rewrite list.Forall_forall in Hv. destruct (Hne (Hv _ Hin)).
Qed.



(** C8, as amended. In a chain produced by staging and mining calls that
    return, every block, the genesis block included, hashes to its stored
    hash, and the stored hash of every block after the genesis block starts
    with as many zeros as the block's difficulty. *)
Theorem produced_blocks_hash_and_target (bc : Blockchain) :
  produced digest dumps_size bc ->
  forall (i : nat) (b : Block.t),
    chain bc !! i = Some b ->
    calculate_hash digest b = Block.hash b
    /\ ((0 < i)%nat -> meets_target b = true).
Proof.
  intros Hp i b Hb.
  destruct (produced_chain_inv bc Hp) as (g & rest & Hc & Hg & Hv & Ht).
  rewrite Hc in Hb. destruct i as [| j]; cbn in Hb.
  - injection Hb as <-. split; [auto | lia].
  - assert (Hin : b ∈ rest) by (apply list_elem_of_lookup; eauto).
    apply valid_from_hashes in Hv. rewrite list.Forall_forall in Hv, Ht.
    split; [symmetry; auto | auto].
Qed.

(** The nonce search finishes once it is given enough steps to reach a
    nonce whose digest meets the target. *)
Lemma mine_loop_terminates fuel b (k : nat) :
  (k <= fuel)%nat ->
  Block.hash b = calculate_hash digest b ->
  meets_target
    (Block.set_hash
       (calculate_hash digest (Block.set_nonce (Block.nonce b + Z.of_nat k) b))
       (Block.set_nonce (Block.nonce b + Z.of_nat k) b)) = true ->
  exists b', mine_loop digest fuel b = Some b'.
Proof.
  assert (Hzero : forall b0,
            Block.hash b0 = calculate_hash digest b0 ->
            Block.set_hash
              (calculate_hash digest
                 (Block.set_nonce (Block.nonce b0 + Z.of_nat 0) b0))
              (Block.set_nonce (Block.nonce b0 + Z.of_nat 0) b0) = b0).
  { intros b0 Hh0. change (Z.of_nat 0) with 0. rewrite Z.add_0_r.
    replace (Block.set_nonce (Block.nonce b0) b0) with b0
      by (destruct b0; reflexivity).
    rewrite <- Hh0. destruct b0; reflexivity. }
  revert b k; induction fuel as [| fuel IH]; intros b k Hk Hh Ht;
    cbn [mine_loop]; destruct (meets_target b) eqn:Hb; eauto.
  - assert (k = 0%nat) as -> by lia.
    rewrite (Hzero b Hh) in Ht. congruence.
  - destruct k as [| k]; [rewrite (Hzero b Hh) in Ht; congruence |].
    apply (IH _ k); [lia | reflexivity |].
    rewrite <- Ht. f_equal.
    destruct b; unfold Block.set_hash, Block.set_nonce, calculate_hash,
      Block.content; cbn [Block.index Block.transactions Block.timestamp
      Block.previous_hash Block.validator Block.difficulty Block.nonce
      Block.hash Block.size Block.gas_used Block.gas_limit].
    replace (nonce + 1 + Z.of_nat k) with (nonce + Z.of_nat (S k)) by lia.
    reflexivity.
Qed.

(** Every transaction waiting in a produced ledger is as staging left it:
    [Pending], without a block number. *)
Lemma produced_pool_pending bc :
  produced digest dumps_size bc ->
  Forall (fun tx => Transaction.status tx = Pending
                    /\ Transaction.block_number tx = None)
         (pending_transactions bc).
Proof.
  induction 1 as [t0 t1 t2 t3
                 | bc uuid now now' r tx_id bc' Hp IH Hst
                 | bc fuel uuid now block_now miner res bc' Hp IH Hm].
  - constructor.
  - destruct (stage_returned _ _ _ _ _ _ _ Hst)
      as (tx & a & _ & _ & _ & _ & _ & Hstatus & Hnumber & _ & _ & _ & ->).
    cbn [pending_transactions].
    apply Forall_app. split; [exact IH |].
    constructor; [split; assumption | constructor].
  - destruct res as [b |].
    + destruct (mine_returns_block _ _ _ _ _ _ _ _ Hm)
        as (_ & _ & _ & -> & _). constructor.
    + apply mine_returns_none in Hm. subst. exact IH.
Qed.

(** The block mining returns embeds the pool as it was before the ledger
    effects were applied: in a produced ledger every staged record is
    [Pending], and no record carries a block number. *)
Lemma mined_block_is_snapshot fuel uuid now block_now miner_address bc b bc' :
  produced digest dumps_size bc ->
  mine_pending_transactions digest dumps_size fuel uuid now block_now
    miner_address bc = (Returned (Some b), bc') ->
  Block.index b = Z.of_nat (length (chain bc))
  /\ Block.transactions b
     = map Transaction.to_dict (pending_transactions bc)
       ++ [Transaction.to_dict (reward_tx uuid now miner_address)]
  /\ Forall (fun d => TxDict.status d = Pending)
            (map Transaction.to_dict (pending_transactions bc))
  /\ Forall (fun d => TxDict.block_number d = None) (Block.transactions b).
Proof.
  intros Hp Hm.
  destruct (mine_returns_block _ _ _ _ _ _ _ _ Hm)
    as (_ & (latest & _ & Hloop) & _).
  apply mine_loop_spec in Hloop; [| reflexivity].
  destruct Hloop as (_ & _ & Hi & Ht & _). cbn in Hi, Ht.
  pose proof (produced_pool_pending bc Hp) as Hpool.
  rewrite Hi, Ht, map_app. cbn [map].
  split; [reflexivity |]. split; [reflexivity |]. split.
  - apply Forall_fmap. eapply Forall_impl; [| exact Hpool].
    intros tx [Hs _]. exact Hs.
  - apply Forall_app. split; [| constructor; [reflexivity | constructor]].
    apply Forall_fmap. eapply Forall_impl; [| exact Hpool].
    intros tx [_ Hn]. exact Hn.
Qed.

End Chain.

(** The run of the model is a produced ledger at each of its stages. *)
Lemma demo_staged_produced : produced toy_digest toy_size demo_staged.
Proof.
  apply (produced_stage toy_digest toy_size demo_fresh
           "0xa" 1%Qc 1%Qc demo_request "0xa" demo_staged);
    [apply produced_init |].
  vm_compute. reflexivity.
Qed.

Lemma demo_mined_produced : produced toy_digest toy_size demo_mined.
Proof.
  destruct (fst demo_mine) as [res | e |] eqn:Hout;
    [| vm_compute in Hout; discriminate Hout ..].
  apply (produced_mine toy_digest toy_size demo_staged
           10 "0xb" 2%Qc 2%Qc ADDR3 res demo_mined);
    [apply demo_staged_produced |].
  rewrite <- Hout. unfold demo_mined. apply surjective_pairing.
Qed.


(** C8, as amended, at block 1 of the run. *)
Lemma produced_blocks_hash_and_target_witness :
  exists b,
    chain demo_mined !! 1%nat = Some b
    /\ calculate_hash toy_digest b = Block.hash b
    /\ ((0 < 1)%nat -> meets_target b = true).
Proof.
  destruct (chain demo_mined !! 1%nat) as [b |] eqn:Hb;
    [| vm_compute in Hb; discriminate Hb].
  exists b. split; [reflexivity |].
  apply (produced_blocks_hash_and_target toy_digest toy_size demo_mined
           demo_mined_produced 1%nat b Hb).
Defined.

(** The genesis block of a fresh ledger: nonce 0, difficulty 4, and as its
    hash the digest of its fields, whatever that digest starts with. *)
Lemma fresh_genesis_block digest dumps_size t0 t1 t2 t3 :
  exists g,
    chain (Blockchain_init digest dumps_size t0 t1 t2 t3) = [g]
    /\ Block.nonce g = 0
    /\ Block.difficulty g = 4%nat
    /\ Block.hash g = digest (mkContent 0 [] t0 "0" SYSTEM_ADDRESS 0).
Proof. eexists. repeat split. Qed.

(** C8, as stated, fails on the genesis block: it is appended without a
    nonce search, and under the digest above the hash of the genesis block of
    the fresh ledger starts with a non-zero digit. *)
Lemma genesis_hash_misses_target :
  ~ (forall digest dumps_size bc,
       produced digest dumps_size bc ->
       forall (i : nat) (b : Block.t),
         chain bc !! i = Some b ->
         meets_target b = true /\ calculate_hash digest b = Block.hash b).
Proof.
  intros Hclaim.
  destruct (chain demo_fresh !! 0%nat) as [g |] eqn:Hg;
    [| vm_compute in Hg; discriminate Hg].
  destruct (Hclaim toy_digest toy_size demo_fresh (produced_init _ _ _ _ _ _)
              0%nat g Hg) as [Ht _].
  vm_compute in Hg. injection Hg as <-.
  vm_compute in Ht. discriminate Ht.
Qed.

(** C2 at the run above: mining returns block 1, whose embedded records are
    the snapshot taken before the ledger effects were applied: the staged
    transfer is still [Pending], and neither record carries a block
    number. *)
Theorem mined_records_keep_snapshot_status :
  exists b bc',
    demo_mine = (Returned (Some b), bc')
    /\ Block.index b = 1
    /\ map TxDict.status (Block.transactions b) = [Pending; Confirmed]
    /\ map TxDict.block_number (Block.transactions b) = [None; None].
Proof.
  destruct demo_mine as [[[b |] | e |] bc'] eqn:Hrun;
    try (vm_compute in Hrun; discriminate Hrun).
  exists b, bc'. split; [reflexivity |].
  vm_compute in Hrun. injection Hrun as <- _.
  repeat split; reflexivity.
Qed.

(** C3 at the run above: looking the mined transfer up by its identifier
    assigns the block number to the record stored in block 1, so the chain is
    no longer the one before the lookup, and [is_chain_valid], which returned
    true before the lookup, returns false after it.  The same happens for
    the history of the sender's address. *)
Theorem lookups_rewrite_stored_records :
  is_chain_valid toy_digest demo_mined = true
  /\ chain (snd (get_transaction "0xa" demo_mined)) <> chain demo_mined
  /\ is_chain_valid toy_digest (snd (get_transaction "0xa" demo_mined)) = false
  /\ chain (snd (get_account_transactions ADDR1 demo_mined)) <> chain demo_mined
  /\ is_chain_valid toy_digest (snd (get_account_transactions ADDR1 demo_mined))
     = false.
Proof.
  assert (Hfield : forall c c' : list Block.t,
            map (fun b => map TxDict.block_number (Block.transactions b)) c
            <> map (fun b => map TxDict.block_number (Block.transactions b)) c' ->
            c <> c') by (intros c c' Hne ->; apply Hne; reflexivity).
  split; [vm_compute; reflexivity |].
  split; [apply Hfield; vm_compute; discriminate |].
  split; [vm_compute; reflexivity |].
  split; [apply Hfield; vm_compute; discriminate |].
  vm_compute; reflexivity.
Qed.

(** C10 at the fresh ledger and the overdraft request. *)
Lemma failed_staging_creates_recipient_witness :
  (exists acc,
     accounts (snd (stage_transaction "0xc" 1%Qc 1%Qc demo_overdraft demo_fresh))
       !! req_to demo_overdraft = Some acc
     /\ Account.balance acc = Float.zero /\ Account.nonce acc = 0)
  /\ accounts (snd (stage_transaction "0xc" 1%Qc 1%Qc demo_overdraft demo_fresh))
       !! req_from demo_overdraft
     = accounts demo_fresh !! req_from demo_overdraft
  /\ pending_transactions
       (snd (stage_transaction "0xc" 1%Qc 1%Qc demo_overdraft demo_fresh))
     = pending_transactions demo_fresh
  /\ chain (snd (stage_transaction "0xc" 1%Qc 1%Qc demo_overdraft demo_fresh))
     = chain demo_fresh.
Proof.
  apply (failed_staging_creates_recipient "0xc" 1%Qc 1%Qc demo_overdraft
           demo_fresh).
  - rewrite (surjective_pairing
               (stage_transaction "0xc" 1%Qc 1%Qc demo_overdraft demo_fresh)).
    f_equal; vm_compute; reflexivity.
  - vm_compute. reflexivity.
Defined.

(** *** Gas and fee *)

Lemma process_transaction_keeps_gas_and_fee tx n accs :
  Transaction.gas_used (fst (fst (_process_transaction tx n accs)))
  = Transaction.gas_used tx
  /\ Transaction.fee (fst (fst (_process_transaction tx n accs)))
     = Transaction.fee tx.
Proof.
  unfold _process_transaction.
  destruct (_ !! Transaction.recipient _); split; reflexivity.
Qed.

Lemma process_pending_keeps_gas_and_fee txs n accs :
  map Transaction.gas_used (fst (fst (process_pending txs n accs)))
  = map Transaction.gas_used txs
  /\ map Transaction.fee (fst (fst (process_pending txs n accs)))
     = map Transaction.fee txs.
Proof.
  revert accs; induction txs as [| tx rest IH]; intros accs; [split; reflexivity |].
  cbn [process_pending].
  pose proof (process_transaction_keeps_gas_and_fee tx n accs) as [Hg Hf].
  destruct (_process_transaction tx n accs) as [[tx' accs'] [e |]];
    cbn [fst] in Hg, Hf.
  - cbn [fst map]. rewrite Hg, Hf. split; reflexivity.
  - specialize (IH accs').
    destruct (process_pending rest n accs') as [[rest' accs''] e].
    cbn [fst map] in IH |- *. destruct IH as [-> ->]. rewrite Hg, Hf.
    split; reflexivity.
Qed.

(** The float a conversion that returns yields. *)
Lemma int_to_float_returns (z : Z) (x : Float.t) :
  Float.int_to_float z = Some x -> x = Float.of_int z.
Proof.
  unfold Float.int_to_float. destruct (Float.of_int z); congruence.
Qed.

(** C7. A transaction that is constructed has
    [gas_used = min(gas_limit, 21000 + 68 * len(data))], [len] counting the
    code points of the payload, and [fee = gas_used * gas_price / 1e9], the
    float division of the product by [1e9], whatever fee the caller passed;
    and the two values are not touched again: staging appends the
    transaction with the same values, the dictionary made of it carries
    them, and the ledger application of a pool leaves them as they are in
    every transaction. *)
Theorem gas_and_fee_derived_at_construction
    uuid now sender recipient amount fee data nonce gas_price gas_limit tx :
  Transaction.init uuid now sender recipient amount fee data nonce
    gas_price gas_limit = Some tx ->
  Transaction.gas_used tx
    = Z.min gas_limit (21000 + 68 * Z.of_nat (length data))
  /\ Transaction.fee tx
     = Float.div (Float.of_int (Transaction.gas_used tx * gas_price))
         (Float.of_int 1000000000)
  /\ (forall fee', Transaction.init uuid now sender recipient amount fee' data
                     nonce gas_price gas_limit = Some tx)
  /\ (forall now' bc tx_id bc',
        add_transaction now' tx bc = (Returned tx_id, bc') ->
        exists tx',
          pending_transactions bc' = pending_transactions bc ++ [tx']
          /\ Transaction.gas_used tx' = Transaction.gas_used tx
          /\ Transaction.fee tx' = Transaction.fee tx)
  /\ (TxDict.gas_used (Transaction.to_dict tx) = Transaction.gas_used tx
      /\ TxDict.fee (Transaction.to_dict tx) = Transaction.fee tx)
  /\ (forall txs n accs,
        map Transaction.gas_used (fst (fst (process_pending txs n accs)))
        = map Transaction.gas_used txs
        /\ map Transaction.fee (fst (fst (process_pending txs n accs)))
           = map Transaction.fee txs).
Proof.
  intros Hi. pose proof (init_returns _ _ _ _ _ _ _ _ _ _ _ Hi) as [Hfee Htx].
  assert (Hgas : Transaction.gas_used tx
                 = Z.min gas_limit (21000 + 68 * Z.of_nat (length data)))
    by (rewrite Htx; reflexivity).
  split; [exact Hgas |]. split; [| split; [| split; [| split]]].
  - rewrite <- Hgas in Hfee. unfold Transaction.fee_of in Hfee.
    destruct (Float.int_to_float (Transaction.gas_used tx * gas_price))
      as [product |] eqn:Hp; [| discriminate Hfee].
    apply int_to_float_returns in Hp. subst product. congruence.
  - intros fee'. unfold Transaction.init in Hi |- *.
    destruct (Transaction.fee_of _ gas_price); [exact Hi | discriminate Hi].
  - intros now' bc tx_id bc' Hrun.
    destruct (accounts bc !! Transaction.sender tx) as [a |] eqn:Hs.
    + rewrite (add_transaction_known now' tx bc a Hs) in Hrun.
      destruct (Float.ltb _ _) in Hrun; [discriminate Hrun |].
      injection Hrun as _ <-. eexists. split; [reflexivity |].
      split; reflexivity.
    + rewrite (add_transaction_unknown now' tx bc Hs) in Hrun.
      discriminate Hrun.
  - split; reflexivity.
  - apply process_pending_keeps_gas_and_fee.
Qed.

(** C7 at the transfer of the run, with a fee of 7 passed by the caller. *)
Lemma gas_and_fee_derived_at_construction_witness :
  exists tx,
    Transaction.init "0xa" 1%Qc ADDR1 ADDR2 (Float.of_int 100)
      (Float.of_int 7) [] 0 5 21000 = Some tx
    /\ Transaction.gas_used tx = Z.min 21000 (21000 + 68 * Z.of_nat 0)
    /\ Transaction.fee tx
       = Float.div (Float.of_int (Transaction.gas_used tx * 5))
           (Float.of_int 1000000000).
Proof.
  destruct (Transaction.init "0xa" 1%Qc ADDR1 ADDR2 (Float.of_int 100)
              (Float.of_int 7) [] 0 5 21000) as [tx |] eqn:Hi;
    [| vm_compute in Hi; discriminate Hi].
  exists tx. split; [reflexivity |].
  destruct (gas_and_fee_derived_at_construction "0xa" 1%Qc ADDR1 ADDR2
              (Float.of_int 100) (Float.of_int 7) [] 0 5 21000 tx Hi)
    as (H1 & H2 & _).
  split; assumption.
Defined.

(** *** Nonces *)

Lemma process_transaction_nonce tx n accs s a :
  accs !! s = Some a ->
  exists a', snd (fst (_process_transaction tx n accs)) !! s = Some a'
             /\ Account.nonce a' = Account.nonce a.
Proof.
  intros Hs. unfold _process_transaction.
  cbn [Transaction.sender Transaction.recipient Transaction.amount
       Transaction.fee Transaction.timestamp Transaction.set_block_number
       Transaction.set_status].
  set (accs1 := if decide (Transaction.sender tx = SYSTEM_ADDRESS) then accs
                else match accs !! Transaction.sender tx with
                     | Some sender => <[Transaction.sender tx := _]> accs
                     | None => accs
                     end).
  assert (H1 : exists a1, accs1 !! s = Some a1
                          /\ Account.nonce a1 = Account.nonce a).
  { subst accs1. destruct (decide _); [eauto |].
    destruct (accs !! Transaction.sender tx) as [sa |] eqn:Hsa; [| eauto].
    destruct (decide (Transaction.sender tx = s)) as [<- | Hne].
    - rewrite lookup_insert_eq. eexists; split; [reflexivity |].
      rewrite Hs in Hsa. injection Hsa as <-. reflexivity.
    - rewrite lookup_insert_ne by exact Hne. eauto. }
  destruct H1 as (a1 & Ha1 & Hn1).
  destruct (accs1 !! Transaction.recipient tx) as [ra |] eqn:Hra; cbn [fst snd];
    [| eauto].
  destruct (decide (Transaction.recipient tx = s)) as [<- | Hne].
  - rewrite lookup_insert_eq. eexists; split; [reflexivity |].
    rewrite Ha1 in Hra. injection Hra as <-. exact Hn1.
  - rewrite lookup_insert_ne by exact Hne. eauto.
Qed.

Lemma process_pending_nonce txs n accs s a :
  accs !! s = Some a ->
  exists a', snd (fst (process_pending txs n accs)) !! s = Some a'
             /\ Account.nonce a' = Account.nonce a.
Proof.
  revert accs a; induction txs as [| tx rest IH]; intros accs a Hs;
    [cbn; eauto |].
  cbn [process_pending].
  destruct (process_transaction_nonce tx n accs s a Hs) as (a1 & Ha1 & Hn1).
  destruct (_process_transaction tx n accs) as [[tx' accs'] [e |]];
    cbn [fst snd] in Ha1 |- *; [eauto |].
  destruct (IH accs' a1 Ha1) as (a2 & Ha2 & Hn2).
  destruct (process_pending rest n accs') as [[rest' accs''] e].
  cbn [fst snd] in Ha2 |- *. exists a2. split; [exact Ha2 | congruence].
Qed.

Lemma add_transaction_nonce now tx bc s a :
  accounts bc !! s = Some a ->
  exists a', accounts (snd (add_transaction now tx bc)) !! s = Some a'
             /\ Account.nonce a <= Account.nonce a'.
Proof.
  intros Hs.
  assert (Hw : with_recipient now tx (accounts bc) !! s = Some a).
  { unfold with_recipient.
    destruct (accounts bc !! Transaction.recipient tx) eqn:Hr; [exact Hs |].
    rewrite lookup_insert_ne; [exact Hs | congruence]. }
  destruct (accounts bc !! Transaction.sender tx) as [sa |] eqn:Hsa.
  - rewrite (add_transaction_known now tx bc sa Hsa).
    destruct (Float.ltb _ _); cbn [snd accounts set_accounts].
    + exists a. split; [exact Hw | lia].
    + destruct (decide (Transaction.sender tx = s)) as [<- | Hne].
      * rewrite lookup_insert_eq. eexists; split; [reflexivity |].
        rewrite Hs in Hsa. injection Hsa as <-. cbn. lia.
      * rewrite lookup_insert_ne by exact Hne. exists a. split; [exact Hw | lia].
  - rewrite (add_transaction_unknown now tx bc Hsa). exists a.
    split; [exact Hs | lia].
Qed.

Lemma get_transaction_accounts tx_id bc :
  accounts (snd (get_transaction tx_id bc)) = accounts bc
  /\ pending_transactions (snd (get_transaction tx_id bc))
     = pending_transactions bc.
Proof.
  unfold get_transaction. destruct (find _ _); [split; reflexivity |].
  destruct (find_tx_chain tx_id (chain bc)) as [[r c] |]; split; reflexivity.
Qed.

Lemma get_account_transactions_accounts address bc :
  accounts (snd (get_account_transactions address bc)) = accounts bc
  /\ pending_transactions (snd (get_account_transactions address bc))
     = pending_transactions bc.
Proof.
  unfold get_account_transactions.
  destruct (collect_chain address (chain bc)); split; reflexivity.
Qed.

Section Runs.

Variable digest : BlockContent -> string.
Variable dumps_size : BlockContent -> nat -> string -> Z.

Lemma mine_nonce fuel uuid now block_now miner_address bc s a :
  accounts bc !! s = Some a ->
  exists a',
    accounts (snd (mine_pending_transactions digest dumps_size fuel uuid now
                     block_now miner_address bc)) !! s = Some a'
    /\ Account.nonce a' = Account.nonce a.
Proof.
  intros Hs. rewrite mine_pending_transactions_reward. cbv zeta.
  destruct (pending_transactions bc) as [| tx0 txs]; [cbn; eauto |].
  destruct (get_latest_block _); [| cbn; eauto].
  destruct (mine_block _ _ _ _) as [nb |]; [| cbn; eauto].
  cbn [chain set_pending pending_transactions accounts set_chain].
  match goal with
  | |- context [process_pending ?p ?n ?m] =>
      destruct (process_pending_nonce p n m s a Hs) as (a' & Ha' & Hn');
      destruct (process_pending p n m) as [[pool accs] [e |]]
  end; cbn [fst snd accounts] in Ha' |- *; eauto.
Qed.

Lemma run_op_nonce o bc bc' s a :
  run_op digest dumps_size o bc = Some bc' ->
  accounts bc !! s = Some a ->
  exists a', accounts bc' !! s = Some a' /\ Account.nonce a <= Account.nonce a'.
Proof.
  intros Hrun Hs. destruct o as [uuid now now' r | fuel uuid now bn m | i | ad];
    cbn [run_op] in Hrun.
  - injection Hrun as <-.
    destruct (stage_cases uuid now now' r bc) as [-> | (tx & _ & -> & _)];
      [exists a; split; [exact Hs | lia] | apply add_transaction_nonce, Hs].
  - destruct (mine_nonce fuel uuid now bn m bc s a Hs) as (a' & Ha' & Hn').
    destruct (mine_pending_transactions _ _ _ _ _ _ _ _) as [[res | e |] bc1];
      [| | discriminate Hrun]; injection Hrun as <-; cbn [snd] in Ha';
      exists a'; (split; [exact Ha' | lia]).
  - injection Hrun as <-. rewrite (proj1 (get_transaction_accounts i bc)).
    exists a. split; [exact Hs | lia].
  - injection Hrun as <-.
    rewrite (proj1 (get_account_transactions_accounts ad bc)).
    exists a. split; [exact Hs | lia].
Qed.

Lemma run_ops_nonce ops bc bc' s a :
  run_ops digest dumps_size ops bc = Some bc' ->
  accounts bc !! s = Some a ->
  exists a', accounts bc' !! s = Some a' /\ Account.nonce a <= Account.nonce a'.
Proof.
  revert bc a; induction ops as [| o rest IH]; intros bc a Hrun Hs;
    cbn [run_ops] in Hrun.
  - injection Hrun as <-. exists a. split; [exact Hs | lia].
  - destruct (run_op digest dumps_size o bc) as [bc1 |] eqn:Ho; [| discriminate Hrun].
    destruct (run_op_nonce o bc bc1 s a Ho Hs) as (a1 & Ha1 & Hn1).
    destruct (IH bc1 a1 Hrun Ha1) as (a2 & Ha2 & Hn2).
    exists a2. split; [exact Ha2 | lia].
Qed.

(** What a staging call that returns did. *)
Lemma stage_returns uuid now now' r bc tx_id bc' :
  stage_transaction uuid now now' r bc = (Returned tx_id, bc') ->
  exists a tx,
    accounts bc !! req_from r = Some a
    /\ pending_transactions bc' = pending_transactions bc ++ [tx]
    /\ Transaction.id tx = tx_id
    /\ Transaction.sender tx = req_from r
    /\ Transaction.nonce tx = Account.nonce a
    /\ accounts bc' !! req_from r
       = Some (Account.set_nonce (Account.nonce a + 1) a).
Proof.
  intros Hrun.
  destruct (stage_returned _ _ _ _ _ _ _ Hrun)
    as (tx & a & _ & Hid & Hsender & _ & _ & _ & _ & Ha & _ & -> & ->).
  exists a, (Transaction.set_nonce (Account.nonce a) tx).
  cbn [pending_transactions accounts]. split; [exact Ha |].
  split; [reflexivity |]. split; [exact Hid |]. split; [exact Hsender |].
  split; [reflexivity |]. apply lookup_insert_eq.
Qed.

(** C6. A staging call that returns gives the staged transaction the nonce
    the sender's account had before the call and leaves the account with
    that nonce plus one; and whatever calls follow, staging, mining or
    lookups, returning or raising, a transaction the same sender stages later
    gets a strictly greater nonce. *)
Theorem staged_nonce_is_sender_nonce uuid now now' r bc tx_id bc' :
  stage_transaction uuid now now' r bc = (Returned tx_id, bc') ->
  exists a a' tx,
    accounts bc !! req_from r = Some a
    /\ pending_transactions bc' = pending_transactions bc ++ [tx]
    /\ Transaction.id tx = tx_id
    /\ Transaction.nonce tx = Account.nonce a
    /\ accounts bc' !! req_from r = Some a'
    /\ Account.nonce a' = Account.nonce a + 1
    /\ forall ops bc2 uuid2 t2 t2' r2 tx_id2 bc2',
         run_ops digest dumps_size ops bc' = Some bc2 ->
         req_from r2 = req_from r ->
         stage_transaction uuid2 t2 t2' r2 bc2 = (Returned tx_id2, bc2') ->
         exists tx2,
           pending_transactions bc2' = pending_transactions bc2 ++ [tx2]
           /\ Transaction.id tx2 = tx_id2
           /\ Transaction.nonce tx < Transaction.nonce tx2.
Proof.
  intros Hrun.
  destruct (stage_returns _ _ _ _ _ _ _ Hrun)
    as (a & tx & Ha & Hp & Hid & _ & Hn & Ha').
  exists a, (Account.set_nonce (Account.nonce a + 1) a), tx.
  repeat (split; [first [assumption | reflexivity] |]).
  intros ops bc2 uuid2 t2 t2' r2 tx_id2 bc2' Hops Hfrom Hrun2.
  destruct (stage_returns _ _ _ _ _ _ _ Hrun2)
    as (a2 & tx2 & Ha2 & Hp2 & Hid2 & _ & Hn2 & _).
  exists tx2. repeat (split; [assumption |]).
  destruct (run_ops_nonce ops bc' bc2 (req_from r) _ Hops Ha') as (a3 & Ha3 & Hle).
  rewrite Hfrom, Ha3 in Ha2. injection Ha2 as ->.
  cbn in Hle. lia.
Qed.

End Runs.

(** C6 at the staging call of the run. *)
Lemma staged_nonce_is_sender_nonce_witness :
  exists a a' tx,
    accounts demo_fresh !! req_from demo_request = Some a
    /\ pending_transactions demo_staged = pending_transactions demo_fresh ++ [tx]
    /\ Transaction.id tx = "0xa"%string
    /\ Transaction.nonce tx = Account.nonce a
    /\ accounts demo_staged !! req_from demo_request = Some a'
    /\ Account.nonce a' = Account.nonce a + 1
    /\ forall ops bc2 uuid2 t2 t2' r2 tx_id2 bc2',
         run_ops toy_digest toy_size ops demo_staged = Some bc2 ->
         req_from r2 = req_from demo_request ->
         stage_transaction uuid2 t2 t2' r2 bc2 = (Returned tx_id2, bc2') ->
         exists tx2,
           pending_transactions bc2' = pending_transactions bc2 ++ [tx2]
           /\ Transaction.id tx2 = tx_id2
           /\ Transaction.nonce tx < Transaction.nonce tx2.
Proof.
  apply (staged_nonce_is_sender_nonce toy_digest toy_size
           "0xa" 1%Qc 1%Qc demo_request demo_fresh "0xa" demo_staged).
  vm_compute. reflexivity.
Defined.

(** *** Value moved by mining *)

Lemma balances_insert (accs : gmap string Account.t) k a a' (f : Float.t -> Float.t) :
  accs !! k = Some a ->
  Account.balance a' = f (Account.balance a) ->
  balances (<[k := a']> accs) = alter f k (balances accs).
Proof.
  intros Hk Hb. apply map_eq. intros i. unfold balances.
  destruct (decide (i = k)) as [-> | Hne].
  - rewrite lookup_fmap, lookup_insert_eq, lookup_alter_eq, lookup_fmap, Hk.
    cbn. rewrite Hb. reflexivity.
  - rewrite lookup_fmap, lookup_insert_ne, lookup_alter_ne, lookup_fmap
      by congruence.
    reflexivity.
Qed.

Lemma balances_alter_none (accs : gmap string Account.t) k (f : Float.t -> Float.t) :
  accs !! k = None -> alter f k (balances accs) = balances accs.
Proof.
  intros Hk. apply map_eq. intros i. unfold balances.
  destruct (decide (i = k)) as [-> | Hne].
  - rewrite lookup_alter_eq, lookup_fmap, Hk. reflexivity.
  - rewrite lookup_alter_ne by congruence. reflexivity.
Qed.

(** One transaction applied without an exception is a transfer between
    two balances. *)
Lemma process_transaction_balances tx n accs tx' accs' :
  _process_transaction tx n accs = (tx', accs', None) ->
  balances accs' = transfer tx (balances accs).
Proof.
  unfold _process_transaction, transfer.
  cbn [Transaction.sender Transaction.recipient Transaction.amount
       Transaction.fee Transaction.timestamp Transaction.set_block_number
       Transaction.set_status].
  set (accs1 :=
         if decide (Transaction.sender tx = SYSTEM_ADDRESS) then accs
         else match accs !! Transaction.sender tx with
              | Some sender =>
                  <[Transaction.sender tx :=
                      Account.debit
                        (Float.add (Transaction.amount tx) (Transaction.fee tx))
                        (Transaction.timestamp tx) sender]> accs
              | None => accs
              end).
  assert (H1 : balances accs1
               = if decide (Transaction.sender tx = SYSTEM_ADDRESS)
                 then balances accs
                 else alter (fun b =>
                               Float.sub b
                                 (Float.add (Transaction.amount tx)
                                    (Transaction.fee tx)))
                        (Transaction.sender tx) (balances accs)).
  { subst accs1. destruct (decide _); [reflexivity |].
    destruct (accs !! Transaction.sender tx) as [sender |] eqn:Hs.
    - apply (balances_insert accs _ sender); [exact Hs | reflexivity].
    - symmetry. apply balances_alter_none, Hs. }
  destruct (accs1 !! Transaction.recipient tx) as [recipient |] eqn:Hr;
    [| discriminate].
  intros [= _ <-]. rewrite <- H1.
  apply (balances_insert accs1 _ recipient); [exact Hr | reflexivity].
Qed.

Lemma process_pending_balances txs n accs pool' accs' :
  process_pending txs n accs = (pool', accs', None) ->
  balances accs' = transfers txs (balances accs).
Proof.
  revert accs pool' accs'; induction txs as [| tx rest IH];
    intros accs pool' accs'; cbn [process_pending transfers fold_left].
  - intros [= _ <-]. reflexivity.
  - destruct (_process_transaction tx n accs) as [[tx1 accs1] [e |]] eqn:Hstep;
      [discriminate |].
    destruct (process_pending rest n accs1) as [[rest1 accs2] e] eqn:Hrest.
    intros [= _ <- ->].
    rewrite (IH _ _ _ Hrest).
    rewrite (process_transaction_balances _ _ _ _ _ Hstep). reflexivity.
Qed.

Lemma transfer_lookup tx (bal : gmap string Float.t) k :
  transfer tx bal !! k = settle_one k tx <$> bal !! k.
Proof.
  unfold transfer, settle_one.
  set (debit := fun b : Float.t =>
                  Float.sub b (Float.add (Transaction.amount tx)
                                 (Transaction.fee tx))).
  set (credit := fun b : Float.t => Float.add b (Transaction.amount tx)).
  assert (Hdebit :
    (if decide (Transaction.sender tx = SYSTEM_ADDRESS) then bal
     else alter debit (Transaction.sender tx) bal) !! k
    = (fun b => if decide (Transaction.sender tx = k
                           /\ Transaction.sender tx <> SYSTEM_ADDRESS)
                then debit b else b) <$> bal !! k).
  { destruct (decide (Transaction.sender tx = SYSTEM_ADDRESS)) as [Hs | Hs].
    - destruct (decide _) as [[_ Hn] | _]; [contradiction |].
      destruct (bal !! k); reflexivity.
    - destruct (decide (Transaction.sender tx = k)) as [<- | Hk].
      + rewrite lookup_alter_eq.
        destruct (decide _) as [_ | Hn]; [| destruct Hn; split; auto].
        reflexivity.
      + rewrite lookup_alter_ne by exact Hk.
        destruct (decide _) as [[Hn _] | _]; [contradiction |].
        destruct (bal !! k); reflexivity. }
  destruct (decide (Transaction.recipient tx = k)) as [<- | Hr].
  - rewrite lookup_alter_eq, Hdebit.
    destruct (bal !! Transaction.recipient tx); reflexivity.
  - rewrite lookup_alter_ne by exact Hr. rewrite Hdebit.
    destruct (bal !! k); reflexivity.
Qed.

Lemma transfers_lookup txs (bal : gmap string Float.t) k :
  transfers txs bal !! k = settle k txs <$> bal !! k.
Proof.
  unfold transfers, settle. revert bal.
  induction txs as [| tx rest IH]; intros bal; cbn [fold_left].
  - destruct (bal !! k); reflexivity.
  - rewrite IH, transfer_lookup. destruct (bal !! k); reflexivity.
Qed.

(** A pool applied without an exception, seen from one account. *)
Lemma process_pending_account txs n accs pool' accs' k a :
  process_pending txs n accs = (pool', accs', None) ->
  accs !! k = Some a ->
  exists a',
    accs' !! k = Some a'
    /\ Account.balance a' = settle k txs (Account.balance a).
Proof.
  intros Hpp Hk.
  pose proof (process_pending_balances _ _ _ _ _ Hpp) as Hb.
  apply (f_equal (fun m => m !! k)) in Hb.
  rewrite transfers_lookup in Hb. unfold balances in Hb.
  rewrite !lookup_fmap, Hk in Hb. cbn in Hb.
  destruct (accs' !! k) as [a' |]; [| discriminate Hb].
  injection Hb as Hb. eauto.
Qed.

Section Conservation.

Variable digest : BlockContent -> string.
Variable dumps_size : BlockContent -> nat -> string -> Z.

Lemma produced_senders_known bc :
  produced digest dumps_size bc ->
  Forall (sender_known (accounts bc)) (pending_transactions bc).
Proof.
  induction 1 as [t0 t1 t2 t3
                 | bc uuid now now' r tx_id bc' Hp IH Hst
                 | bc fuel uuid now block_now miner res bc' Hp IH Hm].
  - constructor.
  - destruct (stage_returns _ _ _ _ _ _ _ Hst)
      as (a & tx & Ha & Hpool & _ & Hsender & _ & Ha').
    rewrite Hpool. apply Forall_app. split.
    + eapply Forall_impl; [| exact IH].
      intros t [Hs | [x Hx]]; [left; exact Hs | right].
      destruct (stage_cases uuid now now' r bc) as [Hc | (tx0 & _ & Hc & _)];
        [rewrite Hc in Hst; discriminate Hst |].
      destruct (add_transaction_nonce now' tx0 bc _ x Hx) as (x' & Hx' & _).
      rewrite <- Hc, Hst in Hx'. eauto.
    + constructor; [| constructor]. right. rewrite Hsender, Ha'. eauto.
  - destruct res as [b |].
    + destruct (mine_returns_block _ _ _ _ _ _ _ _ _ _ Hm)
        as (_ & _ & _ & -> & _). constructor.
    + apply mine_returns_none in Hm. subst. exact IH.
Qed.

(** C4, as amended. When mining returns a block, the balances are those
    before the call after the transfers of the pool, reward last, one after
    the other: a transaction whose sender is not the system address takes
    the float sum of its amount and fee from its sender, who has an account,
    and gives its amount to its recipient; the reward only gives.  What is
    taken for a transaction exceeds what is given by the fee, which is added
    to no balance. *)
Theorem mining_debits_credits_and_fees
    fuel uuid now block_now miner_address (bc : Blockchain) b bc' :
  produced digest dumps_size bc ->
  mine_pending_transactions digest dumps_size fuel uuid now block_now
    miner_address bc = (Returned (Some b), bc') ->
  let pool := pending_transactions bc ++ [reward_tx uuid now miner_address] in
  balances (accounts bc') = transfers pool (balances (accounts bc))
  /\ Forall (sender_known (accounts bc)) pool
  /\ Forall (fun tx => debit_of tx
                       = Some (Float.add (Transaction.amount tx)
                                 (Transaction.fee tx)))
            (transfers_of pool).
Proof.
  intros Hp Hm pool.
  destruct (mine_returns_block _ _ _ _ _ _ _ _ _ _ Hm)
    as (_ & _ & _ & _ & (pool' & Hpp)).
  split; [exact (process_pending_balances _ _ _ _ _ Hpp) |]. split.
  - apply Forall_app. split; [apply produced_senders_known, Hp |].
    constructor; [| constructor]. left. reflexivity.
  - apply list.Forall_forall. intros tx Htx.
    apply list_elem_of_filter in Htx as [Hne _].
    unfold debit_of. destruct (decide _); [contradiction | reflexivity].
Qed.

End Conservation.

(** C4, as amended, at the mining call of the run. *)
Lemma mining_debits_credits_and_fees_witness :
  produced toy_digest toy_size demo_staged
  /\ exists b,
       demo_mine = (Returned (Some b), demo_mined)
       /\ balances (accounts demo_mined)
          = transfers
              (pending_transactions demo_staged
                 ++ [reward_tx "0xb" 2%Qc ADDR3])
              (balances (accounts demo_staged)).
Proof.
  split; [exact demo_staged_produced |].
  unfold demo_mined.
  destruct demo_mine as [[[b |] | e |] bc'] eqn:Hrun;
    try (vm_compute in Hrun; discriminate Hrun).
  exists b. split; [reflexivity |].
  apply (mining_debits_credits_and_fees toy_digest toy_size 10 "0xb" 2%Qc 2%Qc
           ADDR3 demo_staged b bc' demo_staged_produced Hrun).
Defined.

(** C4, as stated, fails at the run above: what ledger application
    subtracts from senders sums to the float 100.000105, what it adds to
    recipients, the reward left out, to 100. *)
Lemma debits_exceed_credits_by_fees :
  ~ (forall digest dumps_size fuel uuid now block_now miner_address bc b bc',
       produced digest dumps_size bc ->
       mine_pending_transactions digest dumps_size fuel uuid now block_now
         miner_address bc = (Returned (Some b), bc') ->
       let pool := pending_transactions bc ++ [reward_tx uuid now miner_address] in
       Float_sum (omap debit_of pool)
       = Float_sum (map Transaction.amount (transfers_of pool))).
Proof.
  intros Hclaim.
  destruct demo_mine as [[[b |] | e |] bc'] eqn:Hrun;
    try (vm_compute in Hrun; discriminate Hrun).
  specialize (Hclaim toy_digest toy_size 10%nat "0xb"%string 2%Qc 2%Qc ADDR3
                demo_staged b bc' demo_staged_produced Hrun).
  cbv zeta in Hclaim. vm_compute in Hclaim. discriminate Hclaim.
Qed.

(** *** Network statistics *)




(** On a chain of at most ten blocks the two averages coincide: the loop of
    [get_network_stats] then ranges over all the blocks. *)
Lemma block_times_all (blocks : list Block.t) :
  map (fun i => (timestamp_at blocks i - timestamp_at blocks (i - 1))%Qc)
      (seq 1 (length blocks - 1))
  = timestamp_deltas blocks.
Proof.
  induction blocks as [| b1 [| b2 rest] IH]; [reflexivity | reflexivity |].
  replace (length (b1 :: b2 :: rest) - 1)%nat with (S (length (b2 :: rest) - 1))
    by (cbn [length]; lia).
  change (timestamp_deltas (b1 :: b2 :: rest))
    with ((Block.timestamp b2 - Block.timestamp b1)%Qc
            :: timestamp_deltas (b2 :: rest)).
  cbn [seq map]. f_equal. rewrite <- IH.
  rewrite <- seq_shift, map_map. apply map_ext_in.
  intros i Hi. apply in_seq in Hi.
  destruct i as [| i]; [lia |].
  replace (S (S i) - 1)%nat with (S (S i - 1)) by lia. reflexivity.
Qed.

Lemma avg_block_time_short_chain (blocks : list Block.t) :
  (length blocks <= 10)%nat ->
  avg_block_time blocks = avg_block_time_of_latest blocks.
Proof.
  intros Hlen. unfold avg_block_time, avg_block_time_of_latest, block_times,
    latest_blocks.
  replace (Nat.min 11 (length blocks)) with (length blocks) by lia.
  replace (length blocks - 10)%nat with 0%nat by lia.
  rewrite block_times_all. reflexivity.
Qed.

(** C9 at the twelve-block chain above.  [get_network_stats] averages the
    differences between the timestamps of blocks 0 to 10, the oldest eleven,
    and reports 1; the most recent ten blocks, 2 to 11, are 98/9 apart on
    average.  The transaction rate and the difficulty are those of the latest
    block: 2 transactions over the reported average, and 4. *)
Theorem stats_average_over_oldest_blocks :
  map Block.timestamp (chain demo_long)
  = map Qc_of_Z [0; 1; 2; 3; 4; 5; 6; 7; 8; 9; 10; 100]
  /\ average_block_time (get_network_stats demo_long) = 1%Qc
  /\ avg_block_time_of_latest (chain demo_long) = (Qc_of_Z 98 / Qc_of_Z 9)%Qc
  /\ tps (get_network_stats demo_long) = 2%Qc
  /\ stat_difficulty (get_network_stats demo_long) = 4%nat.
Proof.
  assert (Hmap : forall l l' : list Qc, map this l = map this l' -> l = l').
  { induction l as [| x l IH]; intros [| y l'] H; try discriminate H;
      [reflexivity |].
    injection H as Hx Hl. f_equal; [| auto].
    apply Qc_is_canon. rewrite Hx. reflexivity. }
  split; [apply Hmap; vm_compute; reflexivity |].
  split; [apply Qc_is_canon; vm_compute; reflexivity |].
  split; [apply Qc_is_canon; vm_compute; reflexivity |].
  split; [apply Qc_is_canon; vm_compute; reflexivity |].
  vm_compute; reflexivity.
Qed.

(** ** Further properties *)

(** *** The nonce search *)

Section Search.

Variable digest : BlockContent -> string.

(** One iteration of the loop of [mine_block]. *)
Lemma nonce_candidate_step b (j : nat) :
  nonce_candidate digest
    (Block.set_hash
       (calculate_hash digest (Block.set_nonce (Block.nonce b + 1) b))
       (Block.set_nonce (Block.nonce b + 1) b)) j
  = nonce_candidate digest b (S j).
Proof.
  destruct j as [| j].
  - reflexivity.
  - destruct b. unfold nonce_candidate, Block.set_hash, Block.set_nonce,
      calculate_hash, Block.content.
    cbn [Block.index Block.transactions Block.timestamp
      Block.previous_hash Block.validator Block.difficulty Block.nonce
      Block.hash Block.size Block.gas_used Block.gas_limit].
    replace (nonce + 1 + Z.of_nat (S j)) with (nonce + Z.of_nat (S (S j))) by lia.
    reflexivity.
Qed.

(** X1. The nonce search returns a block exactly when one of the first
    [fuel + 1] candidates meets the target, and the block it returns is the
    first candidate that does: no smaller nonce was passed over. *)
Theorem mine_loop_returns_first_candidate (fuel : nat) (b b' : Block.t) :
  mine_loop digest fuel b = Some b'
  <-> exists k : nat,
        (k <= fuel)%nat
        /\ b' = nonce_candidate digest b k
        /\ meets_target (nonce_candidate digest b k) = true
        /\ forall j : nat, (j < k)%nat ->
             meets_target (nonce_candidate digest b j) = false.
Proof.
  revert b; induction fuel as [| fuel IH]; intros b; cbn [mine_loop].
  - destruct (meets_target b) eqn:Hb; split.
    + intros [= <-]. exists 0%nat. repeat split; auto; intros j Hj; lia.
    + intros (k & Hk & -> & Ht & Hmin). assert (k = 0%nat) as -> by lia.
      reflexivity.
    + discriminate.
    + intros (k & Hk & -> & Ht & Hmin). assert (k = 0%nat) as -> by lia.
      cbn in Ht. congruence.
  - destruct (meets_target b) eqn:Hb; split.
    + intros [= <-]. exists 0%nat. repeat split; auto; [lia | intros j Hj; lia].
    + intros (k & Hk & -> & Ht & Hmin). destruct k as [| k]; [reflexivity |].
      specialize (Hmin 0%nat ltac:(lia)). cbn in Hmin. congruence.
    + intros Hrun. apply IH in Hrun as (k & Hk & -> & Ht & Hmin).
      exists (S k). rewrite nonce_candidate_step in Ht |- *.
      repeat split; auto; [lia |].
      intros [| j] Hj; [exact Hb |].
      rewrite <- nonce_candidate_step. apply Hmin. lia.
    + intros (k & Hk & -> & Ht & Hmin). destruct k as [| k];
        [cbn in Ht; congruence |].
      apply IH. exists k. rewrite nonce_candidate_step.
      repeat split; auto; [lia |].
      intros j Hj. rewrite nonce_candidate_step. apply Hmin. lia.
Qed.

End Search.
(** *** What a mining call does *)

Lemma mine_loop_unhashed digest fuel b b' :
  mine_loop digest fuel b = Some b' ->
  Block.size b' = Block.size b
  /\ Block.gas_used b' = Block.gas_used b
  /\ Block.gas_limit b' = Block.gas_limit b.
Proof.
  revert b; induction fuel as [| fuel IH]; intros b; cbn [mine_loop];
    destruct (meets_target b); try discriminate.
  - intros [= <-]. auto.
  - intros [= <-]. auto.
  - intros Hrun. apply IH in Hrun as (H1 & H2 & H3). cbn in H1, H2, H3. auto.
Qed.

Lemma process_transaction_error tx n accs :
  let '(tx', accs', e) := _process_transaction tx n accs in
  tx' = Transaction.set_block_number n (Transaction.set_status Confirmed tx)
  /\ (forall k, is_Some (accs !! k) <-> is_Some (accs' !! k))
  /\ (e = None \/ e = Some TypeError)
  /\ (e = None <-> is_Some (accs !! Transaction.recipient tx)).
Proof.
  unfold _process_transaction.
  cbn [Transaction.sender Transaction.recipient Transaction.amount
       Transaction.fee Transaction.timestamp Transaction.set_block_number
       Transaction.set_status].
  set (accs1 := if decide (Transaction.sender tx = SYSTEM_ADDRESS) then accs
                else match accs !! Transaction.sender tx with
                     | Some sender => <[Transaction.sender tx := _]> accs
                     | None => accs
                     end).
  assert (H1 : forall k, is_Some (accs !! k) <-> is_Some (accs1 !! k)).
  { intros k. subst accs1. destruct (decide _); [tauto |].
    destruct (accs !! Transaction.sender tx) as [sa |] eqn:Hsa; [| tauto].
    destruct (decide (Transaction.sender tx = k)) as [<- | Hne].
    - rewrite lookup_insert_eq, Hsa. split; eauto.
    - rewrite lookup_insert_ne by exact Hne. tauto. }
  destruct (accs1 !! Transaction.recipient tx) as [ra |] eqn:Hra.
  - split; [reflexivity |]. split; [| split; [auto |]].
    + intros k. rewrite H1.
      destruct (decide (Transaction.recipient tx = k)) as [<- | Hne].
      * rewrite lookup_insert_eq, Hra. split; eauto.
      * rewrite lookup_insert_ne by exact Hne. tauto.
    + split; [intros _ | reflexivity]. apply H1. eauto.
  - split; [reflexivity |]. split; [exact H1 |]. split; [auto |].
    split; [discriminate |]. intros Hs. apply H1 in Hs.
    rewrite Hra in Hs. destruct Hs as [? [=]].
Qed.

(** The loop over the pool stops with an exception exactly when a recipient
    has no account, and the exception is the [TypeError]. *)
Lemma process_pending_error txs n accs :
  let '(pool, accs', e) := process_pending txs n accs in
  length pool = length txs
  /\ (forall k, is_Some (accs !! k) <-> is_Some (accs' !! k))
  /\ (e = None \/ e = Some TypeError)
  /\ (e = None
      <-> Forall (fun tx => is_Some (accs !! Transaction.recipient tx)) txs).
Proof.
  revert accs; induction txs as [| tx rest IH]; intros accs;
    cbn [process_pending].
  - split; [reflexivity |]. split; [tauto |]. split; [auto |].
    split; [constructor | reflexivity].
  - pose proof (process_transaction_error tx n accs) as Hstep.
    destruct (_process_transaction tx n accs) as [[tx' accs1] [e |]].
    + destruct Hstep as (_ & Hk & He & Hiff).
      split; [reflexivity |]. split; [exact Hk |]. split; [exact He |].
      split; [discriminate |].
      intros Hall. inversion Hall as [| ? ? Htx _]; subst.
      apply Hiff in Htx. discriminate Htx.
    + destruct Hstep as (_ & Hk & _ & Hiff).
      specialize (IH accs1).
      destruct (process_pending rest n accs1) as [[rest' accs2] e].
      destruct IH as (Hlen & Hk2 & He2 & Hiff2).
      split; [cbn [length]; congruence |].
      split; [intros k; rewrite Hk; apply Hk2 |]. split; [exact He2 |].
      rewrite Hiff2. split.
      * intros Hall. constructor; [apply Hiff; reflexivity |].
        eapply Forall_impl; [| exact Hall]. intros t Ht. apply Hk, Ht.
      * intros Hall. inversion Hall as [| ? ? _ Hrest]; subst.
        eapply Forall_impl; [| exact Hrest]. intros t Ht. apply Hk, Ht.
Qed.

Section Mining.

Variable digest : BlockContent -> string.
Variable dumps_size : BlockContent -> nat -> string -> Z.

(** The four ways a mining call can go. *)
Lemma mine_cases fuel uuid now block_now miner_address bc :
  let pool := pending_transactions bc ++ [reward_tx uuid now miner_address] in
  let run := mine_pending_transactions digest dumps_size fuel uuid now
               block_now miner_address bc in
  (pending_transactions bc = [] /\ run = (Returned None, bc))
  \/ (pending_transactions bc <> [] /\ list.last (chain bc) = None
      /\ run = (Raised IndexError, set_pending pool bc))
  \/ (pending_transactions bc <> []
      /\ exists latest,
           list.last (chain bc) = Some latest
           /\ mine_loop digest fuel
                (candidate_block digest dumps_size uuid now block_now miner_address
                   bc latest)
              = None
           /\ run = (OutOfFuel, set_pending pool bc))
  \/ (pending_transactions bc <> []
      /\ exists latest b pool' accs' e,
           list.last (chain bc) = Some latest
           /\ mine_loop digest fuel
                (candidate_block digest dumps_size uuid now block_now miner_address
                   bc latest)
              = Some b
           /\ process_pending pool (Block.index b) (accounts bc)
              = (pool', accs', e)
           /\ run = match e with
                    | Some x =>
                        (Raised x, mkBlockchain (chain bc ++ [b]) pool' accs')
                    | None =>
                        (Returned (Some b),
                         mkBlockchain (chain bc ++ [b]) [] accs')
                    end).
Proof.
  cbv zeta. rewrite mine_pending_transactions_reward. cbv zeta.
  unfold get_latest_block, mine_block, candidate_block.
  cbn [chain set_pending pending_transactions accounts set_chain].
  destruct (pending_transactions bc) as [| tx0 txs] eqn:Hp; [left; auto |].
  right.
  set (pool := (tx0 :: txs) ++ [reward_tx uuid now miner_address]).
  destruct (list.last (chain bc)) as [latest |] eqn:Hl;
    [| left; split; [discriminate | split; reflexivity]].
  right.
  destruct (mine_loop digest fuel _) as [nb |] eqn:Hm.
  - right. split; [discriminate |].
    destruct (process_pending pool (Block.index nb) (accounts bc))
      as [[pool' accs'] e] eqn:Hpp.
    exists latest, nb, pool', accs', e.
    split; [reflexivity |]. split; [exact Hm |].
    split; [first [reflexivity | exact Hpp] |].
    destruct e; reflexivity.
  - left. split; [discriminate |]. exists latest. auto.
Qed.


(** X2. Mining returns no block exactly when the pending pool is empty, and
    then the ledger is left as it was: no reward is staged. *)
Theorem mining_returns_nothing_iff_pool_empty
    fuel uuid now block_now miner_address (bc : Blockchain) :
  (fst (mine_pending_transactions digest dumps_size fuel uuid now block_now
          miner_address bc) = Returned None
   <-> pending_transactions bc = [])
  /\ (pending_transactions bc = [] ->
      snd (mine_pending_transactions digest dumps_size fuel uuid now block_now
             miner_address bc) = bc).
Proof.
  destruct (mine_cases fuel uuid now block_now miner_address bc)
    as [[Hp ->] | [(Hp & _ & ->) | [(Hp & l & _ & _ & ->)
       | (Hp & l & b & pool' & accs' & e & _ & _ & _ & ->)]]]; cbn [fst snd].
  - split; [split; auto | auto].
  - split; [split; [discriminate | contradiction] | contradiction].
  - split; [split; [discriminate | contradiction] | contradiction].
  - split; [| contradiction].
    destruct e; cbn [fst]; (split; [discriminate | contradiction]).
Qed.

(** X3. The block a mining call returns: it is appended to the chain and the
    pool is emptied; its index is the old chain length, it names the hash of
    the old last block, the miner and the time of the call, has difficulty 4,
    embeds the pool followed by the reward, sums their gas, hashes to its
    stored hash and meets its target. *)
Theorem mined_block_shape
    fuel uuid now block_now miner_address (bc : Blockchain) b bc' :
  mine_pending_transactions digest dumps_size fuel uuid now block_now
    miner_address bc = (Returned (Some b), bc') ->
  exists latest,
    list.last (chain bc) = Some latest
    /\ chain bc' = chain bc ++ [b]
    /\ pending_transactions bc' = []
    /\ Block.index b = Z.of_nat (length (chain bc))
    /\ Block.previous_hash b = Block.hash latest
    /\ Block.validator b = miner_address
    /\ Block.timestamp b = block_now
    /\ Block.difficulty b = 4%nat
    /\ Block.transactions b
       = map Transaction.to_dict (pending_transactions bc)
         ++ [Transaction.to_dict (reward_tx uuid now miner_address)]
    /\ Block.gas_used b = sum_gas_used (Block.transactions b)
    /\ Block.gas_limit b = 10000000
    /\ Block.hash b = calculate_hash digest b
    /\ meets_target b = true.
Proof.
  intros Hrun.
  destruct (mine_cases fuel uuid now block_now miner_address bc)
    as [[Hp H] | [(Hp & _ & H) | [(Hp & l & _ & _ & H)
       | (Hp & l & b0 & pool' & accs' & e & Hl & Hloop & _ & H)]]];
    rewrite H in Hrun; try discriminate Hrun.
  destruct e; [discriminate Hrun |]. injection Hrun as <- <-.
  exists l. cbn [chain pending_transactions].
  destruct (mine_loop_unhashed _ _ _ _ Hloop) as (_ & Hgu & Hgl).
  apply mine_loop_spec in Hloop; [| reflexivity].
  destruct Hloop as (Hh & Hmt & Hi & Htx & Hts & Hph & Hv & Hd).
  unfold candidate_block in *. cbn in Hi, Htx, Hts, Hph, Hv, Hd, Hgu, Hgl.
  rewrite Hgu, Htx, Hi, Hph, Hv, Hts, Hd, Hgl, map_app.
  repeat split; auto.
Qed.

(** The recipients of the waiting transactions of a produced ledger have
    accounts. *)
Lemma produced_recipients_known bc :
  produced digest dumps_size bc ->
  Forall (fun tx => is_Some (accounts bc !! Transaction.recipient tx))
         (pending_transactions bc).
Proof.
  induction 1 as [t0 t1 t2 t3
                 | bc uuid now now' r tx_id bc' Hp IH Hst
                 | bc fuel uuid now block_now miner res bc' Hp IH Hm].
  - constructor.
  - staged Hst tx Hfields.
    assert (Hkeep : forall k, is_Some (accounts bc !! k) ->
                              is_Some (accounts bc' !! k)).
    { intros k [x Hx].
      destruct (add_transaction_nonce now' tx bc k x Hx) as (x' & Hx' & _).
      rewrite Hst in Hx'. eauto. }
    destruct (accounts bc !! Transaction.sender tx) as [a |] eqn:Hs;
      [ rewrite (add_transaction_known now' tx bc a Hs) in Hst
      | rewrite (add_transaction_unknown now' tx bc Hs) in Hst;
        discriminate Hst ].
    destruct (Float.ltb _ _) in Hst; [discriminate Hst |].
    injection Hst as _ Hbc'. rewrite <- Hbc' in Hkeep |- *.
    cbn [pending_transactions accounts] in *.
    apply Forall_app. split.
    + eapply Forall_impl; [| exact IH]. intros t Ht. apply Hkeep, Ht.
    + constructor; [| constructor].
      cbn [Transaction.recipient Transaction.set_nonce].
      destruct (decide (Transaction.sender tx = Transaction.recipient tx))
        as [<- | Hne]; [rewrite lookup_insert_eq; eauto |].
      rewrite lookup_insert_ne by exact Hne. unfold with_recipient.
      destruct (accounts bc !! Transaction.recipient tx) eqn:Hr;
        [rewrite Hr; eauto | rewrite lookup_insert_eq; eauto].
  - destruct res as [b |].
    + destruct (mine_returns_block _ _ _ _ _ _ _ _ _ _ Hm)
        as (_ & _ & _ & -> & _). constructor.
    + apply mine_returns_none in Hm. subst. exact IH.
Qed.


End Mining.

(** *** What the calls do to the chain *)

Lemma forget_set_block_number n d :
  forget_block_number (TxDict.set_block_number n d) = forget_block_number d.
Proof. reflexivity. Qed.

Lemma forget_block_numbers_set ds b :
  map forget_block_number ds = map forget_block_number (Block.transactions b) ->
  forget_block_numbers (Block.set_transactions ds b) = forget_block_numbers b.
Proof.
  intros H. unfold forget_block_numbers. destruct b. cbn in *. rewrite H.
  reflexivity.
Qed.

Lemma find_tx_dict_forget tx_id n ds r ds' :
  find_tx_dict tx_id n ds = Some (r, ds') ->
  map forget_block_number ds' = map forget_block_number ds.
Proof.
  revert r ds'; induction ds as [| d rest IH]; intros r ds'; cbn [find_tx_dict];
    [discriminate |].
  destruct (String.eqb (TxDict.id d) tx_id).
  - intros [= <- <-]. reflexivity.
  - destruct (find_tx_dict tx_id n rest) as [[r0 rest'] |]; [| discriminate].
    intros [= <- <-]. cbn [map]. f_equal. eapply IH. reflexivity.
Qed.

Lemma find_tx_chain_forget tx_id blocks r blocks' :
  find_tx_chain tx_id blocks = Some (r, blocks') ->
  map forget_block_numbers blocks' = map forget_block_numbers blocks.
Proof.
  revert r blocks'; induction blocks as [| b rest IH]; intros r blocks';
    cbn [find_tx_chain]; [discriminate |].
  destruct (find_tx_dict tx_id (Block.index b) (Block.transactions b))
    as [[r0 ds'] |] eqn:Hd.
  - intros [= <- <-]. cbn [map]. f_equal.
    apply forget_block_numbers_set. eapply find_tx_dict_forget, Hd.
  - destruct (find_tx_chain tx_id rest) as [[r0 rest'] |]; [| discriminate].
    intros [= <- <-]. cbn [map]. f_equal. eapply IH. reflexivity.
Qed.

Lemma collect_dicts_forget address n ds :
  map forget_block_number (snd (collect_dicts address n ds))
  = map forget_block_number ds.
Proof.
  induction ds as [| d rest IH]; [reflexivity |]. cbn [collect_dicts].
  destruct (collect_dicts address n rest) as [found rest'].
  cbn [snd] in IH. destruct (dict_involves address d); cbn [snd map];
    rewrite IH; reflexivity.
Qed.

Lemma collect_chain_forget address blocks :
  map forget_block_numbers (snd (collect_chain address blocks))
  = map forget_block_numbers blocks.
Proof.
  induction blocks as [| b rest IH]; [reflexivity |]. cbn [collect_chain].
  pose proof (collect_dicts_forget address (Block.index b) (Block.transactions b))
    as Hd.
  destruct (collect_dicts address (Block.index b) (Block.transactions b))
    as [found ds'].
  destruct (collect_chain address rest) as [found' rest'].
  cbn [snd] in *. cbn [map]. rewrite IH. f_equal.
  apply forget_block_numbers_set, Hd.
Qed.

Lemma get_transaction_forget tx_id bc :
  map forget_block_numbers (chain (snd (get_transaction tx_id bc)))
  = map forget_block_numbers (chain bc).
Proof.
  unfold get_transaction. destruct (find _ _); [reflexivity |].
  destruct (find_tx_chain tx_id (chain bc)) as [[r c] |] eqn:Hf; [| reflexivity].
  cbn [snd chain set_chain]. eapply find_tx_chain_forget, Hf.
Qed.

Lemma get_account_transactions_forget address bc :
  map forget_block_numbers (chain (snd (get_account_transactions address bc)))
  = map forget_block_numbers (chain bc).
Proof.
  unfold get_account_transactions.
  pose proof (collect_chain_forget address (chain bc)) as H.
  destruct (collect_chain address (chain bc)) as [confirmed c].
  cbn [snd chain set_chain] in *. exact H.
Qed.

Section Chains.

Variable digest : BlockContent -> string.
Variable dumps_size : BlockContent -> nat -> string -> Z.

(** A call leaves the chain as it is, up to the block numbers the lookups
    write, or appends one block, mined on top of the last one. *)
Lemma run_op_chain o bc bc' :
  run_op digest dumps_size o bc = Some bc' ->
  (map forget_block_numbers (chain bc') = map forget_block_numbers (chain bc)
   /\ (is_update o = true -> chain bc' = chain bc))
  \/ (exists b latest,
        chain bc' = chain bc ++ [b]
        /\ list.last (chain bc) = Some latest
        /\ Block.index b = Z.of_nat (length (chain bc))
        /\ Block.previous_hash b = Block.hash latest
        /\ Block.hash b = calculate_hash digest b
        /\ meets_target b = true).
Proof.
  destruct o as [uuid now now' r | fuel uuid now bn m | i | ad];
    cbn [run_op is_update].
  - intros [= <-]. left.
    destruct (stage_transaction uuid now now' r bc) as [out bc1] eqn:Hs.
    cbn [snd]. rewrite (stage_chain _ _ _ _ _ _ _ Hs). auto.
  - destruct (mine_cases digest dumps_size fuel uuid now bn m bc)
      as [[Hp H] | [(Hp & _ & H) | [(Hp & l & _ & _ & H)
         | (Hp & l & b & pool' & accs' & e & Hl & Hloop & _ & H)]]];
      rewrite H.
    + intros [= <-]. left. auto.
    + intros [= <-]. left. auto.
    + discriminate.
    + intros Hrun. right. exists b, l.
      apply mine_loop_spec in Hloop; [| reflexivity].
      destruct Hloop as (Hh & Hmt & Hi & _ & _ & Hph & _).
      unfold candidate_block in *. cbn in Hi, Hph.
      assert (Hc : chain bc' = chain bc ++ [b])
        by (destruct e; injection Hrun as <-; reflexivity).
      auto 10.
  - intros [= <-]. left. split; [apply get_transaction_forget | discriminate].
  - intros [= <-]. left.
    split; [apply get_account_transactions_forget | discriminate].
Qed.

Lemma run_ops_prefix (ops : list op) (bc bc' : Blockchain) :
  run_ops digest dumps_size ops bc = Some bc' ->
  map forget_block_numbers (chain bc)
    `prefix_of` map forget_block_numbers (chain bc').
Proof.
  revert bc; induction ops as [| o rest IH]; intros bc; cbn [run_ops].
  - intros [= <-]. reflexivity.
  - destruct (run_op digest dumps_size o bc) as [bc1 |] eqn:Ho; [| discriminate].
    intros Hrun. etransitivity; [| apply (IH bc1 Hrun)].
    destruct (run_op_chain o bc bc1 Ho) as [[-> _] | (b & l & -> & _)].
    + reflexivity.
    + rewrite map_app. apply prefix_app_r. reflexivity.
Qed.

(** X5. Whatever calls are made, staging, mining or lookups, returning or
    raising, the chain only grows at its end: the chain before is a prefix of
    the chain after, up to the block numbers the lookups write into the
    embedded records, and exactly so when no lookup is among the calls. *)
Theorem chain_only_grows (ops : list op) (bc bc' : Blockchain) :
  run_ops digest dumps_size ops bc = Some bc' ->
  map forget_block_numbers (chain bc)
    `prefix_of` map forget_block_numbers (chain bc')
  /\ (length (chain bc) <= length (chain bc'))%nat
  /\ (forallb is_update ops = true -> chain bc `prefix_of` chain bc').
Proof.
  intros Hrun. pose proof (run_ops_prefix ops bc bc' Hrun) as Hpre.
  split; [exact Hpre |]. split.
  - apply prefix_length in Hpre. rewrite !length_map in Hpre. exact Hpre.
  - revert bc Hrun Hpre; induction ops as [| o rest IH]; intros bc;
      cbn [run_ops forallb].
    + intros [= <-] _ _. reflexivity.
    + destruct (run_op digest dumps_size o bc) as [bc1 |] eqn:Ho;
        [| discriminate].
      intros Hrun _ Hup. apply andb_prop in Hup as [Hu Hrest].
      etransitivity;
        [| apply (IH bc1 Hrun (run_ops_prefix rest bc1 bc' Hrun) Hrest)].
      destruct (run_op_chain o bc bc1 Ho) as [[_ Hsame] | (b & l & -> & _)].
      * rewrite (Hsame Hu). reflexivity.
      * apply prefix_app_r. reflexivity.
Qed.

(** X6. A chain built by staging and mining calls alone passes
    [is_chain_valid], also when some of the calls raised. *)
Theorem updates_keep_chain_valid (ops : list op) t0 t1 t2 t3 (bc : Blockchain) :
  forallb is_update ops = true ->
  run_ops digest dumps_size ops (Blockchain_init digest dumps_size t0 t1 t2 t3)
  = Some bc ->
  is_chain_valid digest bc = true.
Proof.
  intros Hup Hrun. apply chain_inv_valid.
  assert (Hinit : chain_inv digest (Blockchain_init digest dumps_size t0 t1 t2 t3))
    by (apply produced_chain_inv with (dumps_size := dumps_size), produced_init).
  revert Hinit Hup Hrun.
  generalize (Blockchain_init digest dumps_size t0 t1 t2 t3) as bc0.
  induction ops as [| o rest IH]; intros bc0 Hinv Hup; cbn [run_ops].
  - intros [= <-]. exact Hinv.
  - cbn [forallb] in Hup. apply andb_prop in Hup as [Ho Hrest].
    destruct (run_op digest dumps_size o bc0) as [bc1 |] eqn:Hop; [| discriminate].
    apply IH; [| exact Hrest].
    destruct Hinv as (g & l & Hc & Hg & Hv & Ht).
    destruct (run_op_chain o bc0 bc1 Hop)
      as [[_ Hsame] | (b & latest & Hc' & Hl & _ & Hph & Hh & Hmt)].
    + exists g, l. rewrite (Hsame Ho). auto.
    + exists g, (l ++ [b]). rewrite Hc', Hc. repeat split; auto.
      * rewrite Hc in Hl. eapply valid_from_snoc; eauto.
      * apply Forall_app. split; auto.
Qed.

Lemma indexed_forget blocks blocks' :
  map forget_block_numbers blocks' = map forget_block_numbers blocks ->
  indexed blocks -> indexed blocks'.
Proof.
  intros Hmap Hidx i b Hb.
  assert (H1 : map forget_block_numbers blocks' !! i
               = Some (forget_block_numbers b))
    by (rewrite list_lookup_fmap, Hb; reflexivity).
  rewrite Hmap, list_lookup_fmap in H1.
  destruct (blocks !! i) as [b0 |] eqn:Hb0; [| discriminate H1].
  apply (f_equal (fmap Block.index)) in H1. cbn in H1. injection H1 as H1.
  rewrite <- H1. apply Hidx, Hb0.
Qed.

Lemma run_ops_indexed ops bc bc' :
  run_ops digest dumps_size ops bc = Some bc' ->
  indexed (chain bc) -> indexed (chain bc').
Proof.
  revert bc; induction ops as [| o rest IH]; intros bc; cbn [run_ops].
  - intros [= <-]. auto.
  - destruct (run_op digest dumps_size o bc) as [bc1 |] eqn:Ho; [| discriminate].
    intros Hrun Hidx. apply (IH bc1 Hrun).
    destruct (run_op_chain o bc bc1 Ho) as [[Hf _] | (b & l & Hc & _ & Hi & _)].
    + eapply indexed_forget; eauto.
    + rewrite Hc. intros i x Hx.
      apply lookup_app_Some in Hx as [Hx | [Hge Hx]]; [apply Hidx, Hx |].
      destruct (i - length (chain bc))%nat as [| k] eqn:Hk; [| discriminate Hx].
      injection Hx as <-. rewrite Hi. f_equal. lia.
Qed.

(** X7. In every ledger reached from a fresh one, [get_block_by_number]
    finds nothing exactly for a negative number or one from the chain length
    on, and the block it finds for [n] has index [n]. *)
Theorem block_number_is_position
    (ops : list op) t0 t1 t2 t3 (bc : Blockchain) (n : Z) :
  run_ops digest dumps_size ops (Blockchain_init digest dumps_size t0 t1 t2 t3)
  = Some bc ->
  (get_block_by_number n bc = None
   <-> n < 0 \/ Z.of_nat (length (chain bc)) <= n)
  /\ (forall b, get_block_by_number n bc = Some b -> Block.index b = n).
Proof.
  intros Hrun.
  assert (Hidx : indexed (chain bc)).
  { apply (run_ops_indexed ops _ bc Hrun).
    intros [| i] b; cbn; [intros [= <-]; reflexivity | discriminate]. }
  unfold get_block_by_number.
  destruct (decide (0 <= n < Z.of_nat (length (chain bc)))) as [Hin | Hout].
  - split.
    + split; [| lia]. intros Hnone. apply lookup_ge_None in Hnone. lia.
    + intros b Hb. rewrite (Hidx _ _ Hb). lia.
  - split; [split; [lia | reflexivity] | discriminate].
Qed.

(** X8. In every ledger reached from a fresh one, block 0 is the genesis
    block the ledger was created with, unchanged: index 0, previous hash
    ["0"], no transactions. *)
Theorem genesis_block_stays
    (ops : list op) t0 t1 t2 t3 (bc : Blockchain) :
  run_ops digest dumps_size ops (Blockchain_init digest dumps_size t0 t1 t2 t3)
  = Some bc ->
  exists g,
    chain (Blockchain_init digest dumps_size t0 t1 t2 t3) = [g]
    /\ get_block_by_number 0 bc = Some g
    /\ Block.index g = 0
    /\ Block.previous_hash g = "0"%string
    /\ Block.transactions g = []
    /\ Block.timestamp g = t0.
Proof.
  intros Hrun. apply run_ops_prefix in Hrun as [k Hk].
  set (g0 := Block.set_hash
               (calculate_hash digest
                  (Block_init digest dumps_size 0 [] t0 "0" SYSTEM_ADDRESS 4))
               (Block_init digest dumps_size 0 [] t0 "0" SYSTEM_ADDRESS 4)).
  change (chain (Blockchain_init digest dumps_size t0 t1 t2 t3)) with [g0] in *.
  exists g0. split; [reflexivity |].
  split; [| repeat split].
  destruct (chain bc) as [| g rest] eqn:Hc; [discriminate Hk |].
  apply (f_equal head) in Hk. cbn [map app head] in Hk.
  assert (Hg0 : forget_block_numbers g0 = g0) by reflexivity.
  assert (Hg : forget_block_numbers g = g0) by congruence. clear Hk.
  unfold get_block_by_number. rewrite Hc.
  destruct (decide _) as [_ | Hout]; [| cbn [length] in Hout; lia].
  cbn [Z.to_nat lookup list_lookup]. f_equal. rewrite <- Hg.
  assert (Htx : Block.transactions g = []).
  { apply (f_equal Block.transactions) in Hg. cbn in Hg.
    destruct (Block.transactions g); [reflexivity | discriminate Hg]. }
  destruct g. cbn in Htx. subst. reflexivity.
Qed.

End Chains.

(** *** What validation checks *)

Section Validation.

Variable digest : BlockContent -> string.

Lemma valid_from_spec prev l :
  is_chain_valid_from digest prev l = true
  <-> forall (i : nat) (p c : Block.t),
        (prev :: l) !! i = Some p ->
        (prev :: l) !! S i = Some c ->
        Block.hash c = calculate_hash digest c
        /\ Block.previous_hash c = Block.hash p.
Proof.
  revert prev; induction l as [| x l IH]; intros prev.
  - split; [| reflexivity]. intros _ [| i] p c Hp Hc; discriminate Hc.
  - rewrite valid_from_cons, IH. split.
    + intros (Hh & Hp & Hrest) [| i] p c Hp' Hc'.
      * injection Hp' as <-. injection Hc' as <-. auto.
      * apply (Hrest i p c); assumption.
    + intros H. destruct (H 0%nat prev x eq_refl eq_refl) as [Hh Hp].
      split; [exact Hh | split; [exact Hp |]].
      intros i p c Hp' Hc'. apply (H (S i) p c); assumption.
Qed.

(** X9. [is_chain_valid] returns true exactly when every block after the
    first hashes to its stored hash and names the stored hash of the block
    before it. *)
Theorem is_chain_valid_iff (bc : Blockchain) :
  is_chain_valid digest bc = true
  <-> forall (i : nat) (previous_block current_block : Block.t),
        chain bc !! i = Some previous_block ->
        chain bc !! S i = Some current_block ->
        Block.hash current_block = calculate_hash digest current_block
        /\ Block.previous_hash current_block = Block.hash previous_block.
Proof.
  unfold is_chain_valid. destruct (chain bc) as [| g rest].
  - split; [| reflexivity]. intros _ j p c Hp; discriminate Hp.
  - apply valid_from_spec.
Qed.

Lemma valid_from_same_hash p p' l :
  Block.hash p = Block.hash p' ->
  is_chain_valid_from digest p l = is_chain_valid_from digest p' l.
Proof. intros H. destruct l as [| x l]; cbn; [reflexivity |]. rewrite H. reflexivity. Qed.

Lemma valid_from_alter (f : Block.t -> Block.t) :
  (forall b, Block.hash (f b) = Block.hash b
             /\ Block.content (f b) = Block.content b) ->
  forall (i : nat) prev l,
    is_chain_valid_from digest prev (alter f i l)
    = is_chain_valid_from digest prev l.
Proof.
  intros Hf i prev l. revert i prev; induction l as [| x l IH]; intros i prev;
    [destruct i; reflexivity |].
  destruct (Hf x) as [Hh Hc].
  assert (Hp : Block.previous_hash (f x) = Block.previous_hash x)
    by (apply (f_equal c_previous_hash) in Hc; exact Hc).
  destruct i as [| i]; cbn [alter list_alter is_chain_valid_from].
  - unfold calculate_hash. rewrite Hh, Hc, Hp.
    rewrite (valid_from_same_hash (f x) x l Hh). reflexivity.
  - rewrite IH. reflexivity.
Qed.

(** X10. Two things [is_chain_valid] does not see: an assignment to the
    index, timestamp, previous hash, nonce or a transaction of the first
    block, whose own hash is never recomputed; and an assignment to the
    difficulty, size, gas used or gas limit of any block, which are not
    hashed.  The result is the same before and after. *)
Theorem validation_blind_spots
    (bc : Blockchain) (m : mutation) (u : unhashed_mutation) (i : nat) :
  is_chain_valid digest (set_chain (alter (mutate m) 0%nat (chain bc)) bc)
  = is_chain_valid digest bc
  /\ is_chain_valid digest
       (set_chain (alter (mutate_unhashed u) i (chain bc)) bc)
     = is_chain_valid digest bc.
Proof.
  unfold is_chain_valid. cbn [chain set_chain].
  destruct (chain bc) as [| g rest]; [destruct i; auto |].
  split.
  - cbn [alter list_alter]. apply valid_from_same_hash, mutate_hash.
  - assert (Hu : forall b, Block.hash (mutate_unhashed u b) = Block.hash b
                           /\ Block.content (mutate_unhashed u b)
                              = Block.content b)
      by (intros b; destruct u; split; reflexivity).
    destruct i as [| i]; cbn [alter list_alter].
    + apply valid_from_same_hash, Hu.
    + apply valid_from_alter, Hu.
Qed.

End Validation.

(** *** Lookups *)

Lemma find_first {A} (P : A -> bool) (l : list A) (i : nat) (x : A) :
  l !! i = Some x ->
  P x = true ->
  (forall (j : nat) (y : A), (j < i)%nat -> l !! j = Some y -> P y = false) ->
  find P l = Some x.
Proof.
  revert i; induction l as [| y l IH]; intros i Hi Hx Hbefore; [discriminate Hi |].
  destruct i as [| i]; cbn [find].
  - injection Hi as ->. rewrite Hx. reflexivity.
  - rewrite (Hbefore 0%nat y ltac:(lia) eq_refl).
    apply (IH i Hi Hx). intros j z Hj Hz. apply (Hbefore (S j) z); [lia | exact Hz].
Qed.

(** X11. [get_block_by_hash] returns a block of the chain that carries the
    hash asked for, and returns nothing exactly when no block carries it. *)
Theorem get_block_by_hash_finds (block_hash : string) (bc : Blockchain) :
  (forall b, get_block_by_hash block_hash bc = Some b ->
             b ∈ chain bc /\ Block.hash b = block_hash)
  /\ (get_block_by_hash block_hash bc = None
      <-> forall b, b ∈ chain bc -> Block.hash b <> block_hash).
Proof.
  unfold get_block_by_hash. split.
  - intros b Hf. apply find_some in Hf as [Hin Heq].
    split; [apply list_elem_of_In, Hin | apply String.eqb_eq, Heq].
  - split.
    + intros Hf b Hin. apply list_elem_of_In in Hin.
      apply (find_none _ _ Hf) in Hin. apply String.eqb_neq, Hin.
    + intros Hall.
      destruct (find _ (chain bc)) as [b |] eqn:Hf; [| reflexivity].
      apply find_some in Hf as [Hin Heq]. apply list_elem_of_In in Hin.
      apply String.eqb_eq in Heq. destruct (Hall b Hin Heq).
Qed.

Section Hashes.

Variable digest : BlockContent -> string.
Variable dumps_size : BlockContent -> nat -> string -> Z.

Lemma produced_indexed bc :
  produced digest dumps_size bc -> indexed (chain bc).
Proof.
  induction 1 as [t0 t1 t2 t3
                 | bc uuid now now' r tx_id bc' Hp IH Hst
                 | bc fuel uuid now block_now miner res bc' Hp IH Hm].
  - intros [| i] b; cbn; [intros [= <-]; reflexivity | discriminate].
  - rewrite (stage_chain _ _ _ _ _ _ _ Hst). exact IH.
  - destruct res as [b |].
    + destruct (mine_returns_block _ _ _ _ _ _ _ _ _ _ Hm)
        as (_ & (latest & _ & Hloop) & Hc & _).
      apply mine_loop_spec in Hloop; [| reflexivity].
      destruct Hloop as (_ & _ & Hi & _). cbn in Hi.
      rewrite Hc. intros i x Hx.
      apply lookup_app_Some in Hx as [Hx | [Hge Hx]]; [apply IH, Hx |].
      destruct (i - length (chain bc))%nat as [| k] eqn:Hk; [| discriminate Hx].
      injection Hx as <-. rewrite Hi. f_equal. lia.
    + apply mine_returns_none in Hm. subst. exact IH.
Qed.

Lemma produced_hashes bc :
  produced digest dumps_size bc ->
  forall (i : nat) (b : Block.t),
    chain bc !! i = Some b -> Block.hash b = calculate_hash digest b.
Proof.
  intros Hp i b Hb.
  destruct (produced_chain_inv digest dumps_size bc Hp)
    as (g & rest & Hc & Hg & Hv & _).
  rewrite Hc in Hb. destruct i as [| i]; cbn in Hb.
  - injection Hb as <-. exact Hg.
  - apply valid_from_hashes in Hv. rewrite list.Forall_forall in Hv.
    apply Hv, list_elem_of_lookup. eauto.
Qed.

(** X12. In a produced ledger, and with a digest free of collisions, looking
    a block up by its own stored hash returns that block: no two blocks of
    the chain carry the same hash. *)
Theorem get_block_by_hash_round_trip (bc : Blockchain) (i : nat) (b : Block.t) :
  produced digest dumps_size bc ->
  (forall c c' : BlockContent, digest c = digest c' -> c = c') ->
  chain bc !! i = Some b ->
  get_block_by_hash (Block.hash b) bc = Some b.
Proof.
  intros Hp Hinj Hb. unfold get_block_by_hash.
  apply (find_first _ _ i b Hb); [apply String.eqb_refl |].
  intros j y Hj Hy. apply String.eqb_neq. intros Heq.
  rewrite (produced_hashes bc Hp i b Hb), (produced_hashes bc Hp j y Hy) in Heq.
  apply Hinj in Heq. apply (f_equal c_index) in Heq. cbn in Heq.
  rewrite (produced_indexed bc Hp i b Hb), (produced_indexed bc Hp j y Hy) in Heq.
  lia.
Qed.

End Hashes.

Lemma find_tx_dict_again tx_id n ds r ds' :
  find_tx_dict tx_id n ds = Some (r, ds') ->
  find_tx_dict tx_id n ds' = Some (r, ds').
Proof.
  revert r ds'; induction ds as [| d rest IH]; intros r ds'; cbn [find_tx_dict];
    [discriminate |].
  destruct (String.eqb (TxDict.id d) tx_id) eqn:Hid.
  - intros [= <- <-]. cbn [find_tx_dict TxDict.id TxDict.set_block_number].
    rewrite Hid. reflexivity.
  - destruct (find_tx_dict tx_id n rest) as [[r0 rest'] |] eqn:Hrest;
      [| discriminate].
    intros [= <- <-]. cbn [find_tx_dict]. rewrite Hid, (IH _ _ eq_refl).
    reflexivity.
Qed.

Lemma find_tx_chain_again tx_id blocks r blocks' :
  find_tx_chain tx_id blocks = Some (r, blocks') ->
  find_tx_chain tx_id blocks' = Some (r, blocks').
Proof.
  revert r blocks'; induction blocks as [| b rest IH]; intros r blocks';
    cbn [find_tx_chain]; [discriminate |].
  destruct (find_tx_dict tx_id (Block.index b) (Block.transactions b))
    as [[r0 ds'] |] eqn:Hd.
  - intros [= <- <-]. cbn [find_tx_chain Block.index Block.transactions
      Block.set_transactions].
    rewrite (find_tx_dict_again _ _ _ _ _ Hd). reflexivity.
  - destruct (find_tx_chain tx_id rest) as [[r0 rest'] |] eqn:Hrest;
      [| discriminate].
    intros [= <- <-]. cbn [find_tx_chain]. rewrite Hd, (IH _ _ eq_refl).
    reflexivity.
Qed.

Lemma collect_dicts_again address n ds :
  collect_dicts address n (snd (collect_dicts address n ds))
  = collect_dicts address n ds.
Proof.
  induction ds as [| d rest IH]; [reflexivity |]. cbn [collect_dicts].
  destruct (collect_dicts address n rest) as [found rest'] eqn:Hrest.
  cbn [snd] in IH.
  destruct (dict_involves address d) eqn:Hd; cbn [snd collect_dicts].
  - rewrite IH.
    change (dict_involves address (TxDict.set_block_number n d))
      with (dict_involves address d).
    rewrite Hd. reflexivity.
  - rewrite IH, Hd. reflexivity.
Qed.

Lemma collect_chain_again address blocks :
  collect_chain address (snd (collect_chain address blocks))
  = collect_chain address blocks.
Proof.
  induction blocks as [| b rest IH]; [reflexivity |]. cbn [collect_chain].
  pose proof (collect_dicts_again address (Block.index b) (Block.transactions b))
    as Hd.
  destruct (collect_dicts address (Block.index b) (Block.transactions b))
    as [found ds'].
  destruct (collect_chain address rest) as [found' rest'].
  cbn [snd] in *. cbn [collect_chain Block.index Block.transactions
    Block.set_transactions].
  rewrite Hd, IH. reflexivity.
Qed.

(** X13. The two lookups that write to the chain write block numbers into
    embedded records and nothing else: the accounts, the pool and the chain
    without those numbers stay as they were.  Repeating the lookup on the
    ledger it left returns the same answer and changes nothing more. *)
Theorem lookups_write_block_numbers_once
    (tx_id address : string) (bc : Blockchain) :
  (let bc1 := snd (get_transaction tx_id bc) in
   accounts bc1 = accounts bc
   /\ pending_transactions bc1 = pending_transactions bc
   /\ map forget_block_numbers (chain bc1) = map forget_block_numbers (chain bc)
   /\ get_transaction tx_id bc1 = (fst (get_transaction tx_id bc), bc1))
  /\ (let bc2 := snd (get_account_transactions address bc) in
      accounts bc2 = accounts bc
      /\ pending_transactions bc2 = pending_transactions bc
      /\ map forget_block_numbers (chain bc2)
         = map forget_block_numbers (chain bc)
      /\ get_account_transactions address bc2
         = (fst (get_account_transactions address bc), bc2)).
Proof.
  split; cbv zeta.
  - split; [apply get_transaction_accounts |].
    split; [apply get_transaction_accounts |].
    split; [apply get_transaction_forget |].
    unfold get_transaction.
    destruct (find _ (pending_transactions bc)) as [tx |] eqn:Hf.
    + cbn [fst snd]. rewrite Hf. reflexivity.
    + destruct (find_tx_chain tx_id (chain bc)) as [[r c] |] eqn:Hc;
        cbn [fst snd pending_transactions chain set_chain].
      * rewrite Hf, (find_tx_chain_again _ _ _ _ Hc). reflexivity.
      * rewrite Hf, Hc. reflexivity.
  - split; [apply get_account_transactions_accounts |].
    split; [apply get_account_transactions_accounts |].
    split; [apply get_account_transactions_forget |].
    unfold get_account_transactions.
    pose proof (collect_chain_again address (chain bc)) as Hagain.
    destruct (collect_chain address (chain bc)) as [confirmed c].
    cbn [fst snd pending_transactions chain set_chain] in *.
    rewrite Hagain. reflexivity.
Qed.

Lemma find_tx_dict_result tx_id n ds :
  match find_tx_dict tx_id n ds with
  | Some (r, _) =>
      exists d, d ∈ ds /\ TxDict.id d = tx_id
                /\ r = TxDict.set_block_number n d
  | None => Forall (fun d => TxDict.id d <> tx_id) ds
  end.
Proof.
  induction ds as [| d rest IH]; cbn [find_tx_dict]; [constructor |].
  destruct (String.eqb_spec (TxDict.id d) tx_id) as [Heq | Hne].
  - exists d. split; [left | auto].
  - destruct (find_tx_dict tx_id n rest) as [[r rest'] |].
    + destruct IH as (d0 & Hin & Hid & ->). exists d0.
      split; [right; exact Hin | auto].
    + constructor; assumption.
Qed.

Lemma find_tx_chain_result tx_id blocks :
  match find_tx_chain tx_id blocks with
  | Some (r, _) =>
      exists b d, b ∈ blocks /\ d ∈ Block.transactions b
                  /\ TxDict.id d = tx_id
                  /\ r = TxDict.set_block_number (Block.index b) d
  | None =>
      Forall (fun b => Forall (fun d => TxDict.id d <> tx_id)
                              (Block.transactions b)) blocks
  end.
Proof.
  induction blocks as [| b rest IH]; cbn [find_tx_chain]; [constructor |].
  pose proof (find_tx_dict_result tx_id (Block.index b) (Block.transactions b))
    as Hd.
  destruct (find_tx_dict tx_id (Block.index b) (Block.transactions b))
    as [[r ds'] |].
  - destruct Hd as (d & Hin & Hid & ->). exists b, d.
    split; [left | auto].
  - destruct (find_tx_chain tx_id rest) as [[r rest'] |].
    + destruct IH as (b0 & d & Hb & Hin & Hid & ->). exists b0, d.
      split; [right; exact Hb | auto].
    + constructor; assumption.
Qed.

(** X14. [get_transaction] answers from the pool before the chain: for an
    identifier some waiting transaction carries, it returns that
    transaction's dictionary and leaves the ledger alone; otherwise, a
    record embedded in a block, with the block's index as its block number;
    and nothing exactly when neither the pool nor any block holds the
    identifier. *)
Theorem get_transaction_result (tx_id : string) (bc : Blockchain) :
  match get_transaction tx_id bc with
  | (Some r, bc') =>
      TxDict.id r = tx_id
      /\ ((exists tx, tx ∈ pending_transactions bc
                      /\ r = Transaction.to_dict tx /\ bc' = bc)
          \/ (Forall (fun tx => Transaction.id tx <> tx_id)
                     (pending_transactions bc)
              /\ exists b d,
                   b ∈ chain bc /\ d ∈ Block.transactions b
                   /\ r = TxDict.set_block_number (Block.index b) d))
  | (None, bc') =>
      bc' = bc
      /\ Forall (fun tx => Transaction.id tx <> tx_id) (pending_transactions bc)
      /\ Forall (fun b => Forall (fun d => TxDict.id d <> tx_id)
                                 (Block.transactions b)) (chain bc)
  end.
Proof.
  unfold get_transaction.
  destruct (find _ (pending_transactions bc)) as [tx |] eqn:Hf.
  - apply find_some in Hf as [Hin Heq]. apply String.eqb_eq in Heq.
    split; [exact Heq |]. left. exists tx.
    split; [apply list_elem_of_In, Hin | auto].
  - assert (Hpool : Forall (fun tx => Transaction.id tx <> tx_id)
                           (pending_transactions bc)).
    { apply list.Forall_forall. intros tx Hin. apply list_elem_of_In in Hin.
      apply (find_none _ _ Hf) in Hin. apply String.eqb_neq, Hin. }
    pose proof (find_tx_chain_result tx_id (chain bc)) as Hc.
    destruct (find_tx_chain tx_id (chain bc)) as [[r c] |].
    + destruct Hc as (b & d & Hb & Hd & Hid & ->).
      split; [exact Hid |]. right. split; [exact Hpool |]. exists b, d. auto.
    + auto.
Qed.

(** *** The history of an address *)

Lemma insert_desc_perm d l : insert_desc d l ≡ₚ d :: l.
Proof.
  induction l as [| x l IH]; cbn [insert_desc]; [reflexivity |].
  destruct (decide _); [reflexivity |].
  rewrite IH. apply perm_swap.
Qed.

Lemma insert_desc_sorted d l :
  StronglySorted later_first l -> StronglySorted later_first (insert_desc d l).
Proof.
  induction 1 as [| x l Hl IH Hx]; cbn [insert_desc].
  - constructor; constructor.
  - destruct (decide (TxDict.timestamp x < TxDict.timestamp d)%Qc) as [Hlt | Hge].
    + constructor; [constructor; assumption |].
      constructor; [apply Qclt_le_weak, Hlt |].
      eapply Forall_impl; [| exact Hx]. intros y Hy. unfold later_first in *.
      eapply Qcle_trans; [exact Hy | apply Qclt_le_weak, Hlt].
    + constructor; [exact IH |].
      rewrite insert_desc_perm. constructor; [| exact Hx].
      apply Qcnot_lt_le, Hge.
Qed.

Lemma filter_timestamp_none (t : Qc) (l : list TxDict.t) :
  Forall (fun x => TxDict.timestamp x <> t) l ->
  filter (fun x => TxDict.timestamp x = t) l = [].
Proof.
  induction 1 as [| x l Hx _ IH]; [reflexivity |].
  rewrite filter_cons_False by exact Hx. exact IH.
Qed.

Lemma insert_desc_filter (t : Qc) d l :
  StronglySorted later_first l ->
  filter (fun x => TxDict.timestamp x = t) (insert_desc d l)
  = filter (fun x => TxDict.timestamp x = t) l
    ++ (if decide (TxDict.timestamp d = t) then [d] else []).
Proof.
  induction 1 as [| x l Hl IH Hx]; cbn [insert_desc].
  - rewrite filter_cons, filter_nil. destruct (decide _); reflexivity.
  - destruct (decide (TxDict.timestamp x < TxDict.timestamp d)%Qc) as [Hlt | Hge].
    + rewrite (filter_cons _ d). destruct (decide (TxDict.timestamp d = t)) as [Hd | Hd];
        [| rewrite app_nil_r; reflexivity].
      assert (Hnone : filter (fun y => TxDict.timestamp y = t) (x :: l) = []).
      { apply filter_timestamp_none. constructor.
        - intros Heq. apply (Qclt_not_eq _ _ Hlt). congruence.
        - eapply Forall_impl; [| exact Hx]. intros y Hy Heq.
          unfold later_first in Hy.
          apply (Qclt_not_eq (TxDict.timestamp y) (TxDict.timestamp d));
            [eapply Qcle_lt_trans; eauto | congruence]. }
      rewrite Hnone. reflexivity.
    + rewrite !(filter_cons _ x), IH.
      destruct (decide (TxDict.timestamp x = t)); reflexivity.
Qed.

Lemma sort_desc_fold ds acc :
  StronglySorted later_first acc ->
  let res := fold_left (fun acc d => insert_desc d acc) ds acc in
  StronglySorted later_first res
  /\ res ≡ₚ acc ++ ds
  /\ forall t, filter (fun x => TxDict.timestamp x = t) res
               = filter (fun x => TxDict.timestamp x = t) (acc ++ ds).
Proof.
  revert acc; induction ds as [| d ds IH]; intros acc Hacc; cbn [fold_left].
  - rewrite app_nil_r. auto.
  - destruct (IH (insert_desc d acc) (insert_desc_sorted d acc Hacc))
      as (Hs & Hp & Hf).
    split; [exact Hs |]. split.
    + rewrite Hp, insert_desc_perm. cbn [app]. apply Permutation_middle.
    + intros t. rewrite Hf, !list.filter_app, (insert_desc_filter t d acc Hacc).
      rewrite (filter_cons _ d), <- app_assoc.
      destruct (decide (TxDict.timestamp d = t)); reflexivity.
Qed.

Lemma collect_dicts_found address n ds :
  fst (collect_dicts address n ds)
  = map (TxDict.set_block_number n)
      (filter (fun d => dict_involves address d = true) ds).
Proof.
  induction ds as [| d rest IH]; [reflexivity |]. cbn [collect_dicts].
  destruct (collect_dicts address n rest) as [found rest'].
  cbn [fst] in IH. rewrite filter_cons.
  destruct (dict_involves address d) eqn:Hd; cbn [fst].
  - destruct (decide (true = true)); [| congruence]. cbn [map]. rewrite IH.
    reflexivity.
  - destruct (decide (false = true)); [discriminate |]. exact IH.
Qed.

Lemma collect_chain_found address blocks :
  fst (collect_chain address blocks) = confirmed_records address blocks.
Proof.
  induction blocks as [| b rest IH]; [reflexivity |]. cbn [collect_chain].
  pose proof (collect_dicts_found address (Block.index b) (Block.transactions b))
    as Hd.
  destruct (collect_dicts address (Block.index b) (Block.transactions b))
    as [found ds'].
  destruct (collect_chain address rest) as [found' rest'].
  cbn [fst] in *. cbn [confirmed_records flat_map].
  fold (confirmed_records address rest). rewrite Hd, IH. reflexivity.
Qed.

(** X15. The history [get_account_transactions] returns holds the records
    of the chain that involve the address, each with its block's index as
    block number, and the waiting transactions that involve it, no more and
    no fewer; it is sorted with the latest timestamp first; and records with
    the same timestamp keep the order they were met in, chain before
    pool. *)
Theorem account_history_sorted (address : string) (bc : Blockchain) :
  let history := fst (get_account_transactions address bc) in
  let met := confirmed_records address (chain bc) ++ pending_records address bc in
  StronglySorted later_first history
  /\ history ≡ₚ met
  /\ (forall t : Qc,
        filter (fun d => TxDict.timestamp d = t) history
        = filter (fun d => TxDict.timestamp d = t) met)
  /\ Forall (fun d => dict_involves address d = true) history.
Proof.
  cbv zeta. unfold get_account_transactions, pending_records.
  pose proof (collect_chain_found address (chain bc)) as Hc.
  destruct (collect_chain address (chain bc)) as [confirmed c].
  cbn [fst] in *. subst confirmed. unfold sort_desc.
  match goal with
  | |- context [fold_left _ ?ds []] =>
      destruct (sort_desc_fold ds [] (SSorted_nil _)) as (Hs & Hp & Hf)
  end.
  cbn [app] in Hp, Hf.
  split; [exact Hs |]. split; [exact Hp |]. split; [exact Hf |].
  rewrite Hp. apply Forall_app. split.
  - clear. unfold confirmed_records. induction (chain bc) as [| b rest IH];
      [constructor |].
    cbn [flat_map]. apply Forall_app. split; [| exact IH].
    apply Forall_fmap. apply list.Forall_forall. intros d Hd.
    apply list_elem_of_filter in Hd as [Hd _]. exact Hd.
  - apply Forall_fmap. apply list.Forall_forall. intros tx Htx.
    apply list_elem_of_filter in Htx as [Htx _].
    unfold dict_involves. cbn.
    destruct Htx as [-> | ->]; rewrite String.eqb_refl;
      [reflexivity | apply orb_true_r].
Qed.

(** *** Staging and the balances *)

Lemma add_transaction_balance now tx bc k a :
  accounts bc !! k = Some a ->
  exists a', accounts (snd (add_transaction now tx bc)) !! k = Some a'
             /\ Account.balance a' = Account.balance a.
Proof.
  intros Hk.
  assert (Hw : with_recipient now tx (accounts bc) !! k = Some a).
  { unfold with_recipient.
    destruct (accounts bc !! Transaction.recipient tx) eqn:Hr; [exact Hk |].
    rewrite lookup_insert_ne; [exact Hk | congruence]. }
  destruct (accounts bc !! Transaction.sender tx) as [sa |] eqn:Hsa.
  - rewrite (add_transaction_known now tx bc sa Hsa).
    destruct (Float.ltb _ _); cbn [snd accounts set_accounts]; [eauto |].
    destruct (decide (Transaction.sender tx = k)) as [<- | Hne].
    + rewrite lookup_insert_eq. eexists; split; [reflexivity |].
      rewrite Hk in Hsa. injection Hsa as <-. reflexivity.
    + rewrite lookup_insert_ne by exact Hne. eauto.
  - rewrite (add_transaction_unknown now tx bc Hsa). eauto.
Qed.

(** X16. Staging checks the sender's balance and reserves nothing: a staging
    call that returns has left every balance as it was, so the same request
    is accepted again, whatever the balance covers, and both wait in the
    pool. *)
Theorem staging_reserves_nothing uuid now now' (r : TxRequest) (bc : Blockchain)
    tx_id bc' :
  stage_transaction uuid now now' r bc = (Returned tx_id, bc') ->
  (forall k a, accounts bc !! k = Some a ->
     exists a', accounts bc' !! k = Some a'
                /\ Account.balance a' = Account.balance a)
  /\ forall uuid2 t2 t2',
       exists bc2,
         stage_transaction uuid2 t2 t2' r bc' = (Returned uuid2, bc2)
         /\ length (pending_transactions bc2)
            = S (S (length (pending_transactions bc))).
Proof.
  intros Hrun.
  destruct (stage_returned _ _ _ _ _ _ _ Hrun)
    as (tx1 & a & Hi1 & _ & Hs1 & _ & Ham1 & _ & _ & Ha & Hlt & _ & Hbc').
  assert (Hbal : forall k a, accounts bc !! k = Some a ->
            exists a', accounts bc' !! k = Some a'
                       /\ Account.balance a' = Account.balance a).
  { intros k x Hk.
    destruct (add_transaction_balance now' tx1 bc k x Hk) as (x' & Hx' & Hb).
    destruct (stage_constructed uuid now now' r bc tx1 Hi1) as (Hc & _).
    rewrite <- Hc, Hrun in Hx'. eauto. }
  split; [exact Hbal |]. intros uuid2 t2 t2'.
  destruct (Hbal _ _ Ha) as (a' & Ha' & Hb).
  pose proof (init_returns _ _ _ _ _ _ _ _ _ _ _ Hi1) as [Hfee1 _].
  cbv zeta in Hfee1.
  destruct (Transaction.init uuid2 t2 (req_from r) (req_to r) (req_amount r)
              Float.zero (req_data r) 0 (req_gas_price r) (req_gas_limit r))
    as [tx2 |] eqn:Hi2.
  - pose proof (init_returns _ _ _ _ _ _ _ _ _ _ _ Hi2) as [Hfee2 _].
    cbv zeta in Hfee2. rewrite Hfee1 in Hfee2. injection Hfee2 as Hfee.
    destruct (stage_constructed uuid2 t2 t2' r bc' tx2 Hi2)
      as (-> & Hid2 & Hs2 & _ & Ham2).
    rewrite <- Hs2 in Ha'.
    rewrite (add_transaction_known t2' tx2 bc' a' Ha').
    rewrite Hb, Ham2, <- Ham1, <- Hfee, Hlt, Hid2.
    eexists. split; [reflexivity |].
    rewrite Hbc'. cbn [pending_transactions]. rewrite !length_app.
    cbn [length]. lia.
  - apply init_raises in Hi2. congruence.
Qed.

Section Pool.

Variable digest : BlockContent -> string.
Variable dumps_size : BlockContent -> nat -> string -> Z.

(** X17. In a produced ledger the waiting transactions of one sender carry
    strictly increasing nonces in pool order, all below the nonce of the
    sender's account. *)
Theorem produced_pool_nonces_ordered (bc : Blockchain) :
  produced digest dumps_size bc -> pool_nonces_ordered bc.
Proof.
  induction 1 as [t0 t1 t2 t3
                 | bc uuid now now' r tx_id bc' Hp IH Hst
                 | bc fuel uuid now block_now miner res bc' Hp IH Hm].
  - split; [intros i j tx1 tx2 _ H; discriminate H | constructor].
  - destruct IH as [Hord Hbound].
    destruct (stage_returns _ _ _ _ _ _ _ Hst)
      as (a & tx & Ha & Hpool & _ & Hsender & Hnonce & Ha').
    assert (Hbound' : Forall
              (fun t => exists x, accounts bc' !! Transaction.sender t = Some x
                                  /\ Transaction.nonce t < Account.nonce x)
              (pending_transactions bc)).
    { eapply Forall_impl; [| exact Hbound]. intros t (x & Hx & Hlt).
      staged Hst t0 Hfields.
      destruct (add_transaction_nonce now' t0 bc _ x Hx) as (x' & Hx' & Hle).
      rewrite Hst in Hx'. exists x'. split; [exact Hx' | lia]. }
    split.
    + intros i j tx1 tx2 Hij H1 H2 Hs. rewrite Hpool in H1, H2.
      apply lookup_app_Some in H2 as [H2 | [Hge H2]].
      * rewrite lookup_app_l in H1 by (apply lookup_lt_Some in H2; lia).
        apply (Hord i j tx1 tx2 Hij H1 H2 Hs).
      * destruct (j - length (pending_transactions bc))%nat eqn:Hk;
          [| discriminate H2].
        injection H2 as <-.
        rewrite lookup_app_l in H1 by lia.
        rewrite list.Forall_forall in Hbound.
        destruct (Hbound tx1) as (x & Hx & Hlt);
          [apply list_elem_of_lookup; eauto |].
        rewrite Hs, Hsender, Ha in Hx. injection Hx as <-. lia.
    + rewrite Hpool. apply Forall_app. split; [exact Hbound' |].
      constructor; [| constructor]. rewrite Hsender.
      eexists. split; [exact Ha' |]. cbn. lia.
  - destruct res as [b |].
    + destruct (mine_returns_block _ _ _ _ _ _ _ _ _ _ Hm)
        as (_ & _ & _ & Hpool & _).
      split; [intros i j tx1 tx2 _ H; rewrite Hpool in H; discriminate H |].
      rewrite Hpool. constructor.
    + apply mine_returns_none in Hm. subst. exact IH.
Qed.

End Pool.

(** *** The average block time *)

Lemma Qc_sum_app l1 l2 : Qc_sum (l1 ++ l2) = (Qc_sum l1 + Qc_sum l2)%Qc.
Proof.
  unfold Qc_sum. induction l1 as [| x l1 IH]; cbn [app fold_right]; [ring |].
  rewrite IH. ring.
Qed.

Lemma block_times_telescope (blocks : list Block.t) (n : nat) :
  Qc_sum (map (fun i => (timestamp_at blocks i - timestamp_at blocks (i - 1))%Qc)
              (seq 1 n))
  = (timestamp_at blocks n - timestamp_at blocks 0)%Qc.
Proof.
  induction n as [| n IH]; [cbn; ring |].
  rewrite seq_S, map_app, Qc_sum_app, IH. cbn [map Qc_sum fold_right plus].
  replace (S n - 1)%nat with n by lia. ring.
Qed.

(** X18. The average block time [get_network_stats] reports is 0 for a chain
    of fewer than two blocks; otherwise it is the time from the first block
    to block [n] divided by [n], where [n] is the last index or 10, whichever
    is smaller.  From the eleventh block on, appending blocks does not change
    it. *)
Theorem average_block_time_closed_form (blocks more : list Block.t) :
  let n := (Nat.min 11 (length blocks) - 1)%nat in
  ((length blocks < 2)%nat -> avg_block_time blocks = 0%Qc)
  /\ ((2 <= length blocks)%nat ->
      avg_block_time blocks
      = ((timestamp_at blocks n - timestamp_at blocks 0)
         / Qc_of_Z (Z.of_nat n))%Qc)
  /\ ((11 <= length blocks)%nat ->
      avg_block_time (blocks ++ more) = avg_block_time blocks).
Proof.
  cbv zeta.
  assert (Hform : forall l : list Block.t,
            (2 <= length l)%nat ->
            avg_block_time l
            = ((timestamp_at l (Nat.min 11 (length l) - 1)
                - timestamp_at l 0)
               / Qc_of_Z (Z.of_nat (Nat.min 11 (length l) - 1)))%Qc).
  { intros l Hl. unfold avg_block_time, block_times.
    set (n := (Nat.min 11 (length l) - 1)%nat).
    pose proof (block_times_telescope l n) as Hsum.
    assert (Hlen : length (map (fun i => (timestamp_at l i
                                          - timestamp_at l (i - 1))%Qc)
                               (seq 1 n)) = n)
      by (rewrite length_map, length_seq; reflexivity).
    destruct (map _ (seq 1 n)) as [| q ds].
    - cbn [length] in Hlen. lia.
    - rewrite Hsum, Hlen. reflexivity. }
  split; [| split].
  - intros Hlt. unfold avg_block_time, block_times.
    replace (Nat.min 11 (length blocks) - 1)%nat with 0%nat by lia. reflexivity.
  - apply Hform.
  - intros Hlen. rewrite (Hform blocks) by lia.
    rewrite (Hform (blocks ++ more)) by (rewrite length_app; lia).
    rewrite length_app.
    replace (Nat.min 11 (length blocks + length more) - 1)%nat with 10%nat by lia.
    replace (Nat.min 11 (length blocks) - 1)%nat with 10%nat by lia.
    unfold timestamp_at.
    rewrite !lookup_app_l by lia. reflexivity.
Qed.

(** *** Paging *)

Lemma page_slice_take_drop {A} (limit page : Z) (xs : list A) :
  1 <= limit -> 1 <= page ->
  page_slice limit page xs
  = take (Z.to_nat limit) (drop (Z.to_nat ((page - 1) * limit)) xs).
Proof.
  intros Hl Hp. unfold page_slice, py_slice.
  assert (Hs : 0 <= (page - 1) * limit) by nia.
  destruct ((page - 1) * limit <? 0) eqn:H1; [lia |].
  destruct ((page - 1) * limit + limit <? 0) eqn:H2; [lia |].
  clear H1 H2. set (s := (page - 1) * limit) in *.
  rewrite take_drop_commute.
  destruct (Z.le_gt_cases (s + limit) (Z.of_nat (length xs))) as [Hle | Hgt].
  - rewrite !Z.min_l by lia.
    replace (Z.to_nat (s + limit)) with (Z.to_nat s + Z.to_nat limit)%nat by lia.
    reflexivity.
  - rewrite (Z.min_r (s + limit)) by lia.
    rewrite (take_ge xs (Z.to_nat (Z.of_nat (length xs)))) by lia.
    rewrite (take_ge xs (Z.to_nat s + Z.to_nat limit)) by lia.
    destruct (Z.le_gt_cases s (Z.of_nat (length xs))) as [Hs' | Hs'].
    + rewrite Z.min_l by lia. reflexivity.
    + rewrite Z.min_r by lia. rewrite !drop_ge by lia. reflexivity.
Qed.

(** X19. Paging with a limit of at least 1: a page holds at most [limit]
    entries; the pages up to [page - 1] followed by page [page] are exactly
    the first [page * limit] entries, so the pages neither overlap nor skip;
    and a page is empty exactly when it starts at or past the end. *)
Theorem pages_partition {A} (limit page : Z) (xs : list A) :
  1 <= limit -> 1 <= page ->
  (length (page_slice limit page xs) <= Z.to_nat limit)%nat
  /\ take (Z.to_nat ((page - 1) * limit)) xs ++ page_slice limit page xs
     = take (Z.to_nat (page * limit)) xs
  /\ (page_slice limit page xs = []
      <-> Z.of_nat (length xs) <= (page - 1) * limit).
Proof.
  intros Hl Hp. rewrite (page_slice_take_drop limit page xs Hl Hp).
  assert (Hs : 0 <= (page - 1) * limit) by nia.
  split; [rewrite length_take; lia |]. split.
  - replace (Z.to_nat (page * limit))
      with (Z.to_nat ((page - 1) * limit) + Z.to_nat limit)%nat by nia.
    rewrite <- take_take_drop. reflexivity.
  - split.
    + intros Hnil. apply (f_equal length) in Hnil.
      rewrite length_take, length_drop in Hnil. cbn [length] in Hnil. lia.
    + intros Hge. rewrite drop_ge by lia. apply take_nil.
Qed.

Section Api.

Variable digest : BlockContent -> string.
Variable dumps_size : BlockContent -> nat -> string -> Z.

(** X20. [get_blocks] on a ledger reached from a fresh one: page [page]
    lists the blocks numbered from [(page - 1) * limit] up, at most [limit]
    of them, highest number first.  The first page therefore starts at the
    genesis block, and the latest block is on the last page. *)
Theorem get_blocks_page_numbers
    (ops : list op) t0 t1 t2 t3 (bc : Blockchain) (limit page : Z) :
  run_ops digest dumps_size ops (Blockchain_init digest dumps_size t0 t1 t2 t3)
  = Some bc ->
  1 <= limit -> 1 <= page ->
  let start := Z.to_nat ((page - 1) * limit) in
  let count := Nat.min (Z.to_nat limit) (length (chain bc) - start) in
  map bd_number (bp_blocks (api_get_blocks limit page bc))
  = rev (map Z.of_nat (seq start count))
  /\ bp_total (api_get_blocks limit page bc) = length (chain bc).
Proof.
  intros Hrun Hl Hp. cbv zeta. split; [| reflexivity].
  assert (Hidx : indexed (chain bc)).
  { apply (run_ops_indexed digest dumps_size ops _ bc Hrun).
    intros [| i] b; cbn; [intros [= <-]; reflexivity | discriminate]. }
  unfold api_get_blocks. cbn [bp_blocks].
  rewrite (page_slice_take_drop limit page _ Hl Hp).
  rewrite map_rev. f_equal. rewrite map_map.
  change (fun x => bd_number (Block_to_dict x)) with Block.index.
  set (s := Z.to_nat ((page - 1) * limit)). set (n := Z.to_nat limit).
  apply list_eq. intros i.
  rewrite !list_lookup_fmap.
  destruct (decide (i < n)%nat) as [Hin | Hout].
  - rewrite lookup_take_lt, lookup_drop by lia.
    destruct (chain bc !! (s + i)%nat) as [b |] eqn:Hb;
      cbn [fmap option_fmap option_map].
    + rewrite (Hidx _ _ Hb).
      apply lookup_lt_Some in Hb as Hlt.
      rewrite (lookup_seq_lt s) by lia. reflexivity.
    + apply lookup_ge_None in Hb. rewrite lookup_seq_ge by lia. reflexivity.
  - rewrite lookup_take_ge by lia. rewrite lookup_seq_ge by lia. reflexivity.
Qed.

End Api.

(** *** Submitting through the HTTP layer *)

Section Submit.

Variable digest : BlockContent -> string.
Variable dumps_size : BlockContent -> nat -> string -> Z.

(** On a produced ledger a miner with an account gets its block. *)
Lemma mine_known_miner_returns
    fuel uuid now block_now miner_address (bc : Blockchain) out bc' :
  produced digest dumps_size bc ->
  pending_transactions bc <> [] ->
  is_Some (accounts bc !! miner_address) ->
  mine_pending_transactions digest dumps_size fuel uuid now block_now
    miner_address bc = (out, bc') ->
  out = OutOfFuel \/ exists b, out = Returned (Some b).
Proof.
  intros Hprod Hne Hminer Hrun.
  pose proof (produced_recipients_known digest dumps_size bc Hprod) as Hrec.
  destruct (produced_chain_inv digest dumps_size bc Hprod)
    as (g & rest & Hc & _).
  destruct (mine_cases digest dumps_size fuel uuid now block_now
              miner_address bc)
    as [[Hp H] | [(_ & Hl & H) | [(_ & l & _ & _ & H)
       | (_ & l & b & pool' & accs' & e & Hl & Hloop & Hpp & H)]]];
    rewrite H in Hrun.
  - contradiction.
  - rewrite Hc in Hl. apply last_None in Hl. discriminate Hl.
  - injection Hrun as <- _. auto.
  - pose proof (process_pending_error
                  (pending_transactions bc ++ [reward_tx uuid now miner_address])
                  (Block.index b) (accounts bc)) as Herr.
    rewrite Hpp in Herr. destruct Herr as (_ & _ & _ & Hiff).
    assert (He : e = None).
    { apply Hiff, Forall_app. split; [exact Hrec |].
      constructor; [exact Hminer | constructor]. }
    subst e. injection Hrun as <- _. eauto.
Qed.

(** X21. A transaction submitted through [create_transaction] to a produced
    ledger with nothing waiting is mined at once, by its own sender.  When
    the call answers with success, the pool is empty again, the chain is one
    block longer, and the sender, unless it is the system address, holds
    its old balance less the float sum of amount and fee, plus the amount if
    it sent to itself, plus the reward of 5, each a float operation; mining
    cannot fail, the miner being the sender.  When the call answers with
    failure, staging raised, for a fee out of range, an unknown sender or a
    balance too low, and chain and pool are as before. *)
Theorem submitted_transaction_is_mined_at_once
    fuel uuid now now' reward_uuid reward_now block_now
    (r : TxRequest) (bc : Blockchain) resp bc' :
  produced digest dumps_size bc ->
  pending_transactions bc = [] ->
  api_create_transaction digest dumps_size fuel uuid now now' reward_uuid
    reward_now block_now r bc = Some (resp, bc') ->
  match resp with
  | Success tx_hash =>
      tx_hash = uuid
      /\ produced digest dumps_size bc'
      /\ pending_transactions bc' = []
      /\ length (chain bc') = S (length (chain bc))
      /\ exists a fee a',
           accounts bc !! req_from r = Some a
           /\ Transaction.fee_of
                (Z.min (req_gas_limit r)
                   (21000 + 68 * Z.of_nat (length (req_data r))))
                (req_gas_price r) = Some fee
           /\ Float.ltb (Account.balance a) (Float.add (req_amount r) fee)
              = false
           /\ accounts bc' !! req_from r = Some a'
           /\ (req_from r <> SYSTEM_ADDRESS ->
               Account.balance a'
               = Float.add
                   (if decide (req_to r = req_from r)
                    then Float.add
                           (Float.sub (Account.balance a)
                              (Float.add (req_amount r) fee))
                           (req_amount r)
                    else Float.sub (Account.balance a)
                           (Float.add (req_amount r) fee))
                   (Float.of_int 5))
  | Failure e =>
      (e = OverflowError \/ e = UnknownSender \/ e = InsufficientBalance)
      /\ chain bc' = chain bc
      /\ pending_transactions bc' = []
  end.
Proof.
  intros Hprod Hempty. unfold api_create_transaction.
  destruct (stage_transaction uuid now now' r bc) as [[tx_hash | e |] bc1] eqn:Hst;
    [| | discriminate].
  - pose proof (produced_stage _ _ _ _ _ _ _ _ _ Hprod Hst) as Hprod1.
    destruct (stage_returned _ _ _ _ _ _ _ Hst)
      as (tx & a & Hi & _ & Hsender & Hrecipient & Hamount & _ & _ & Ha
          & Hlt & -> & Hbc1).
    assert (Hpool : pending_transactions bc1
                    = [Transaction.set_nonce (Account.nonce a) tx])
      by (rewrite Hbc1, Hempty; reflexivity).
    assert (Ha1 : accounts bc1 !! req_from r
                  = Some (Account.set_nonce (Account.nonce a + 1) a))
      by (rewrite Hbc1; apply lookup_insert_eq).
    rewrite Hpool.
    destruct (mine_pending_transactions digest dumps_size fuel reward_uuid
                reward_now block_now (req_from r) bc1)
      as [out bc2] eqn:Hm.
    assert (Hne : pending_transactions bc1 <> []) by (rewrite Hpool; discriminate).
    assert (Hminer : is_Some (accounts bc1 !! req_from r))
      by (rewrite Ha1; eauto).
    destruct (mine_known_miner_returns _ _ _ _ _ _ _ _ Hprod1 Hne Hminer Hm)
      as [-> | [b ->]]; [discriminate |].
    intros [= <- <-].
    destruct (mine_returns_block _ _ _ _ _ _ _ _ _ _ Hm)
      as (_ & _ & Hc & Hp2 & (pool' & Hpp)).
    split; [reflexivity |].
    split; [eapply produced_mine; eauto |]. split; [exact Hp2 |].
    split; [rewrite Hc, length_app, (stage_chain _ _ _ _ _ _ _ Hst);
            cbn [length]; lia |].
    pose proof (init_returns _ _ _ _ _ _ _ _ _ _ _ Hi) as [Hfee _].
    cbv zeta in Hfee.
    destruct (process_pending_account _ _ _ _ _ (req_from r) _ Hpp Ha1)
      as (a' & Ha' & Hb).
    exists a, (Transaction.fee tx), a'. split; [exact Ha |].
    split; [exact Hfee |]. split; [rewrite <- Hamount; exact Hlt |].
    split; [exact Ha' |]. intros Hsys. rewrite Hb, Hpool.
    unfold settle. cbn [app fold_left]. unfold settle_one.
    cbn [Transaction.sender Transaction.recipient Transaction.amount
         Transaction.fee Transaction.set_nonce reward_tx Account.balance
         Account.set_nonce].
    rewrite Hsender, Hrecipient, Hamount.
    destruct (decide (req_from r = req_from r /\ req_from r <> SYSTEM_ADDRESS))
      as [_ | Hn]; [| destruct Hn; auto].
    destruct (decide (SYSTEM_ADDRESS = req_from r
                      /\ SYSTEM_ADDRESS <> SYSTEM_ADDRESS))
      as [[_ Hn] | _]; [destruct Hn; reflexivity |].
    destruct (decide (req_from r = req_from r)) as [_ | Hn];
      [| destruct Hn; reflexivity].
    reflexivity.
  - intros [= <- <-].
    destruct (stage_cases uuid now now' r bc) as [Hc | (tx & _ & Hc & _)];
      rewrite Hc in Hst.
    + injection Hst as <- <-. auto.
    + destruct (accounts bc !! Transaction.sender tx) as [x |] eqn:Hx;
        [ rewrite (add_transaction_known now' tx bc x Hx) in Hst
        | rewrite (add_transaction_unknown now' tx bc Hx) in Hst ].
      * destruct (Float.ltb _ _) in Hst; [| discriminate Hst].
        injection Hst as <- <-. cbn [chain pending_transactions set_accounts].
        auto.
      * injection Hst as <- <-. auto.
Qed.

End Submit.

(** *** Settlement account by account *)

Section Settlement.

Variable digest : BlockContent -> string.
Variable dumps_size : BlockContent -> nat -> string -> Z.

(** X22. When mining returns a block, every account is settled on its own:
    its balance is the one before the call after, in the order of the
    block, the float subtraction of amount plus fee for each transaction it
    sent (nothing for the system address) and the float addition of the
    amount of each it received, the reward included; its nonce is the same.
    No account appears or disappears. *)
Theorem mining_settles_each_account
    fuel uuid now block_now miner_address (bc : Blockchain) b bc'
    (address : string) :
  mine_pending_transactions digest dumps_size fuel uuid now block_now
    miner_address bc = (Returned (Some b), bc') ->
  let pool := pending_transactions bc ++ [reward_tx uuid now miner_address] in
  (is_Some (accounts bc' !! address) <-> is_Some (accounts bc !! address))
  /\ forall a, accounts bc !! address = Some a ->
       exists a',
         accounts bc' !! address = Some a'
         /\ Account.balance a' = settle address pool (Account.balance a)
         /\ Account.nonce a' = Account.nonce a.
Proof.
  intros Hm pool.
  destruct (mine_returns_block _ _ _ _ _ _ _ _ _ _ Hm)
    as (_ & _ & _ & _ & (pool' & Hpp)).
  fold pool in Hpp. split.
  - pose proof (process_pending_error pool (Block.index b) (accounts bc)) as He.
    rewrite Hpp in He. destruct He as (_ & Hkeys & _). symmetry. apply Hkeys.
  - intros a Ha.
    destruct (process_pending_account _ _ _ _ _ address a Hpp Ha)
      as (a' & Ha' & Hb).
    destruct (process_pending_nonce pool (Block.index b) (accounts bc)
                address a Ha) as (a'' & Ha'' & Hn).
    rewrite Hpp in Ha''. cbn [fst snd] in Ha''.
    rewrite Ha' in Ha''. injection Ha'' as <-. eauto.
Qed.



End Settlement.

(** *** Lookups and validation together *)

Lemma find_tx_dict_position tx_id n ds r ds' :
  find_tx_dict tx_id n ds = Some (r, ds') ->
  exists (k : nat) (d : TxDict.t),
    ds !! k = Some d /\ ds' = <[k := TxDict.set_block_number n d]> ds.
Proof.
  revert r ds'; induction ds as [| d rest IH]; intros r ds'; cbn [find_tx_dict];
    [discriminate |].
  destruct (String.eqb (TxDict.id d) tx_id).
  - intros [= <- <-]. exists 0%nat, d. split; reflexivity.
  - destruct (find_tx_dict tx_id n rest) as [[r0 rest'] |]; [| discriminate].
    intros [= <- <-]. destruct (IH _ _ eq_refl) as (k & d0 & Hk & ->).
    exists (S k), d0. split; [exact Hk | reflexivity].
Qed.

Lemma find_tx_chain_position tx_id blocks r blocks' :
  find_tx_chain tx_id blocks = Some (r, blocks') ->
  exists (i k : nat) (b : Block.t) (d : TxDict.t),
    blocks !! i = Some b
    /\ Block.transactions b !! k = Some d
    /\ blocks'
       = <[i := Block.set_transactions
                  (<[k := TxDict.set_block_number (Block.index b) d]>
                     (Block.transactions b)) b]> blocks.
Proof.
  revert r blocks'; induction blocks as [| b rest IH]; intros r blocks';
    cbn [find_tx_chain]; [discriminate |].
  destruct (find_tx_dict tx_id (Block.index b) (Block.transactions b))
    as [[r0 ds'] |] eqn:Hd.
  - intros [= <- <-].
    destruct (find_tx_dict_position _ _ _ _ _ Hd) as (k & d & Hk & ->).
    exists 0%nat, k, b, d. auto.
  - destruct (find_tx_chain tx_id rest) as [[r0 rest'] |]; [| discriminate].
    intros [= <- <-]. destruct (IH _ _ eq_refl) as (i & k & b0 & d & Hi & Hk & ->).
    exists (S i), k, b0, d. auto.
Qed.

Lemma collect_dicts_rest address n ds :
  snd (collect_dicts address n ds)
  = map (fun d => if dict_involves address d
                  then TxDict.set_block_number n d else d) ds.
Proof.
  induction ds as [| d rest IH]; [reflexivity |]. cbn [collect_dicts].
  destruct (collect_dicts address n rest) as [found rest'].
  cbn [snd] in IH. cbn [map].
  destruct (dict_involves address d); cbn [snd]; rewrite IH; reflexivity.
Qed.

Lemma collect_chain_rest address blocks :
  snd (collect_chain address blocks)
  = map (fun b =>
           Block.set_transactions
             (map (fun d => if dict_involves address d
                            then TxDict.set_block_number (Block.index b) d
                            else d) (Block.transactions b)) b) blocks.
Proof.
  induction blocks as [| b rest IH]; [reflexivity |]. cbn [collect_chain].
  pose proof (collect_dicts_rest address (Block.index b) (Block.transactions b))
    as Hd.
  destruct (collect_dicts address (Block.index b) (Block.transactions b))
    as [found ds'].
  destruct (collect_chain address rest) as [found' rest'].
  cbn [snd] in *. cbn [map]. rewrite IH, Hd. reflexivity.
Qed.

Section Invalidation.

Variable digest : BlockContent -> string.
Variable dumps_size : BlockContent -> nat -> string -> Z.

(** The records of a produced chain carry no block number, and its first
    block no records. *)
Lemma produced_records_unnumbered bc :
  produced digest dumps_size bc ->
  (exists g rest, chain bc = g :: rest /\ Block.transactions g = [])
  /\ Forall (fun b => Forall (fun d => TxDict.block_number d = None)
                             (Block.transactions b)) (chain bc).
Proof.
  induction 1 as [t0 t1 t2 t3
                 | bc uuid now now' r tx_id bc' Hp IH Hst
                 | bc fuel uuid now block_now miner res bc' Hp IH Hm].
  - split; [eexists _, []; split; reflexivity |].
    constructor; [constructor | constructor].
  - rewrite (stage_chain _ _ _ _ _ _ _ Hst). exact IH.
  - destruct res as [b |].
    + destruct (mine_returns_block _ _ _ _ _ _ _ _ _ _ Hm)
        as (_ & _ & Hc & _).
      destruct (mined_block_is_snapshot _ _ _ _ _ _ _ _ _ _ Hp Hm)
        as (_ & _ & _ & Hnone).
      destruct IH as [(g & rest & Hg & Htx) Hall]. rewrite Hc. split.
      * exists g, (rest ++ [b]). rewrite Hg. auto.
      * apply Forall_app. split; [exact Hall |].
        constructor; [exact Hnone | constructor].
    + apply mine_returns_none in Hm. subst. exact IH.
Qed.

(** A block of a produced chain whose records were touched no longer hashes
    to its stored hash, and the chain fails validation. *)
Lemma touched_block_invalidates bc (i : nat) (b : Block.t)
    (ds' : list TxDict.t) (blocks' : list Block.t) :
  produced digest dumps_size bc ->
  (forall c c' : BlockContent, digest c = digest c' -> c = c') ->
  chain bc !! i = Some b ->
  ds' <> Block.transactions b ->
  blocks' !! i = Some (Block.set_transactions ds' b) ->
  (exists g rest', blocks' = g :: rest') ->
  (0 < i)%nat ->
  is_chain_valid digest (set_chain blocks' bc) = false.
Proof.
  intros Hp Hinj Hb Hne Hb' (g & rest' & ->) Hi.
  unfold is_chain_valid. cbn [chain set_chain].
  destruct i as [| j]; [lia |]. cbn in Hb'.
  apply valid_from_detects with (b := Block.set_transactions ds' b).
  - apply list_elem_of_lookup. eauto.
  - cbn [Block.hash Block.set_transactions].
    rewrite (produced_hashes digest dumps_size bc Hp _ _ Hb).
    unfold calculate_hash. intros Heq. apply Hinj in Heq.
    apply (f_equal c_transactions) in Heq. cbn in Heq. congruence.
Qed.

(** X24. On a produced ledger, and with a digest free of collisions, every
    lookup that finds something on the chain breaks the chain: after
    [get_transaction] has answered for a transaction that is not waiting,
    and after [get_account_transactions] for an address some record of the
    chain involves, [is_chain_valid] returns false. *)
Theorem chain_lookups_invalidate (bc : Blockchain) (tx_id address : string) :
  produced digest dumps_size bc ->
  (forall c c' : BlockContent, digest c = digest c' -> c = c') ->
  (Forall (fun tx => Transaction.id tx <> tx_id) (pending_transactions bc) ->
   is_Some (fst (get_transaction tx_id bc)) ->
   is_chain_valid digest (snd (get_transaction tx_id bc)) = false)
  /\ (confirmed_records address (chain bc) <> [] ->
      is_chain_valid digest (snd (get_account_transactions address bc)) = false).
Proof.
  intros Hp Hinj.
  destruct (produced_records_unnumbered bc Hp) as [(g & rest & Hc & Hg) Hnone].
  split.
  - intros Hpool Hsome. unfold get_transaction in *.
    assert (Hf : find (fun tx => String.eqb (Transaction.id tx) tx_id)
                      (pending_transactions bc) = None).
    { destruct (find _ _) as [tx |] eqn:Hf; [| reflexivity].
      apply find_some in Hf as [Hin Heq]. apply String.eqb_eq in Heq.
      apply list_elem_of_In in Hin. rewrite list.Forall_forall in Hpool.
      destruct (Hpool tx Hin Heq). }
    rewrite Hf in *.
    destruct (find_tx_chain tx_id (chain bc)) as [[r c] |] eqn:Hfc;
      [| destruct Hsome as [? [=]]].
    cbn [snd].
    destruct (find_tx_chain_position _ _ _ _ Hfc) as (i & k & b & d & Hb & Hk & ->).
    rewrite list.Forall_forall in Hnone.
    assert (Hd : TxDict.block_number d = None).
    { assert (Hbin : b ∈ chain bc) by (apply list_elem_of_lookup; eauto).
      specialize (Hnone b Hbin). rewrite list.Forall_forall in Hnone.
      apply Hnone, list_elem_of_lookup. eauto. }
    eapply (touched_block_invalidates bc i b
              (<[k := TxDict.set_block_number (Block.index b) d]>
                 (Block.transactions b)));
      [exact Hp | exact Hinj | exact Hb | | | |].
    + intros Heq. apply (f_equal (fun l => TxDict.block_number <$> l !! k)) in Heq.
      rewrite list_lookup_insert_eq in Heq by (eapply lookup_lt_Some, Hk).
      rewrite Hk in Heq. cbn in Heq. congruence.
    + apply list_lookup_insert_eq. eapply lookup_lt_Some, Hb.
    + rewrite Hc. destruct i; cbn; eauto.
    + destruct i as [| i]; [| lia]. rewrite Hc in Hb. injection Hb as <-.
      rewrite Hg in Hk. discriminate Hk.
  - intros Hrec. unfold get_account_transactions.
    pose proof (collect_chain_rest address (chain bc)) as Hrest.
    destruct (collect_chain address (chain bc)) as [confirmed c].
    cbn [snd] in *. subst c.
    assert (Hex : exists (i : nat) (b : Block.t) (d : TxDict.t),
              chain bc !! i = Some b /\ d ∈ Block.transactions b
              /\ dict_involves address d = true).
    { clear - Hrec. unfold confirmed_records in Hrec.
      induction (chain bc) as [| b l IH]; [destruct Hrec; reflexivity |].
      cbn [flat_map] in Hrec.
      destruct (filter (fun d => dict_involves address d = true)
                       (Block.transactions b)) as [| d ds] eqn:Hf.
      - cbn [map app] in Hrec. destruct (IH Hrec) as (i & b0 & d & Hi & Hd).
        exists (S i), b0, d. auto.
      - assert (Hd : d ∈ filter (fun d => dict_involves address d = true)
                                (Block.transactions b))
          by (rewrite Hf; left).
        apply list_elem_of_filter in Hd as [Hd Hin].
        exists 0%nat, b, d. auto. }
    destruct Hex as (i & b & d & Hb & Hin & Hd).
    apply list_elem_of_lookup in Hin as [k Hk].
    rewrite list.Forall_forall in Hnone.
    assert (Hdn : TxDict.block_number d = None).
    { assert (Hbin : b ∈ chain bc) by (apply list_elem_of_lookup; eauto).
      specialize (Hnone b Hbin). rewrite list.Forall_forall in Hnone.
      apply Hnone, list_elem_of_lookup. eauto. }
    eapply (touched_block_invalidates bc i b
              (map (fun d => if dict_involves address d
                             then TxDict.set_block_number (Block.index b) d
                             else d) (Block.transactions b)));
      [exact Hp | exact Hinj | exact Hb | | | |].
    + intros Heq. apply (f_equal (fun l => TxDict.block_number <$> l !! k)) in Heq.
      rewrite list_lookup_fmap, Hk in Heq. cbn in Heq. rewrite Hd in Heq.
      cbn in Heq. congruence.
    + rewrite list_lookup_fmap, Hb. reflexivity.
    + rewrite Hc. cbn [map]. eauto.
    + destruct i as [| i]; [| lia]. rewrite Hc in Hb. injection Hb as <-.
      rewrite Hg in Hk. discriminate Hk.
Qed.

End Invalidation.

(** X25. The list [get_transactions] pages through has as many entries as
    there are waiting transactions and records embedded in blocks, and it
    holds a record with a given identifier exactly when [get_transaction]
    finds that identifier. *)
Theorem listing_agrees_with_lookup (tx_id : string) (bc : Blockchain) :
  length (all_transactions bc)
  = (length (pending_transactions bc)
     + length (flat_map Block.transactions (chain bc)))%nat
  /\ (fst (get_transaction tx_id bc) = None
      <-> Forall (fun d => TxDict.id d <> tx_id) (all_transactions bc)).
Proof.
  split.
  - unfold all_transactions. rewrite length_app, length_map. f_equal.
    induction (chain bc) as [| b l IH]; [reflexivity |].
    cbn [rev flat_map]. rewrite flat_map_app, !length_app, IH.
    cbn [flat_map]. rewrite app_nil_r, length_map. lia.
  - rewrite List.Forall_forall. unfold get_transaction.
    pose proof (find_tx_chain_result tx_id (chain bc)) as Hc.
    destruct (find (fun tx => String.eqb (Transaction.id tx) tx_id)
                   (pending_transactions bc)) as [tx |] eqn:Hf.
    + cbn [fst]. split; [discriminate |]. intros H. exfalso.
      apply find_some in Hf as [Hin Heq]. apply String.eqb_eq in Heq.
      apply (H (Transaction.to_dict tx)); [| exact Heq].
      unfold all_transactions. apply in_or_app. left. apply in_map. exact Hin.
    + destruct (find_tx_chain tx_id (chain bc)) as [[r c] |]; cbn [fst].
      * split; [discriminate |]. intros H. exfalso.
        destruct Hc as (b & d & Hb & Hd & Hid & _).
        apply (H (TxDict.set_block_number (Block.index b) d));
          [| destruct d; exact Hid].
        unfold all_transactions. apply in_or_app. right.
        apply in_flat_map. exists b. split.
        -- apply -> in_rev. apply list_elem_of_In. exact Hb.
        -- apply in_map. apply list_elem_of_In. exact Hd.
      * split; [| reflexivity]. intros _ d Hin.
        unfold all_transactions in Hin. apply in_app_or in Hin as [Hin | Hin].
        -- apply in_map_iff in Hin as (tx & <- & Hin).
           pose proof (find_none _ _ Hf tx Hin) as Hn. cbn beta in Hn.
           apply String.eqb_neq in Hn. exact Hn.
        -- apply in_flat_map in Hin as (b & Hb & Hin).
           apply in_map_iff in Hin as (d0 & <- & Hd0).
           apply in_rev in Hb. apply list_elem_of_In in Hb, Hd0.
           rewrite list.Forall_forall in Hc. specialize (Hc b Hb).
           rewrite list.Forall_forall in Hc. specialize (Hc d0 Hd0).
           destruct d0; exact Hc.
Qed.

(** *** The further properties at the run of the model *)

Lemma demo_ops_run :
  run_ops toy_digest toy_size demo_ops demo_fresh = Some demo_mined.
Proof. vm_compute. reflexivity. Qed.

Lemma demo_stuck_ops_run :
  run_ops toy_digest toy_size demo_stuck_ops demo_fresh = Some (snd demo_stuck).
Proof. vm_compute. reflexivity. Qed.

Lemma demo_mine_returns :
  exists b, demo_mine = (Returned (Some b), demo_mined).
Proof.
  unfold demo_mined.
  destruct demo_mine as [[[b |] | e |] bc] eqn:Hm;
    [exists b; reflexivity | vm_compute in Hm; discriminate Hm ..].
Qed.

Lemma demo_stuck_raises : demo_stuck = (Raised TypeError, snd demo_stuck).
Proof.
  assert (H : fst demo_stuck = Raised TypeError) by (vm_compute; reflexivity).
  rewrite <- H. apply surjective_pairing.
Qed.

(** The mining call of the run returns a block of the shape stated. *)
Lemma mined_block_shape_witness :
  exists b latest,
    demo_mine = (Returned (Some b), demo_mined)
    /\ list.last (chain demo_staged) = Some latest
    /\ chain demo_mined = chain demo_staged ++ [b]
    /\ pending_transactions demo_mined = []
    /\ Block.index b = Z.of_nat (length (chain demo_staged))
    /\ Block.previous_hash b = Block.hash latest
    /\ Block.validator b = ADDR3
    /\ Block.hash b = calculate_hash toy_digest b
    /\ meets_target b = true.
Proof.
  destruct demo_mine_returns as [b Hm].
  destruct (mined_block_shape toy_digest toy_size 10 "0xb" 2%Qc 2%Qc ADDR3
              demo_staged b demo_mined Hm)
    as (latest & H1 & H2 & H3 & H4 & H5 & H6 & _ & _ & _ & _ & _ & H7 & H8).
  exists b, latest. repeat (split; [assumption |]). assumption.
Defined.


(** After the run, number 1 finds the block with index 1, and number 2
    nothing. *)
Lemma block_number_is_position_witness :
  run_ops toy_digest toy_size demo_ops demo_fresh = Some demo_mined
  /\ get_block_by_number 2 demo_mined = None
  /\ exists b, get_block_by_number 1 demo_mined = Some b /\ Block.index b = 1.
Proof.
  split; [exact demo_ops_run |].
  destruct (block_number_is_position toy_digest toy_size demo_ops
              0%Qc 0%Qc 0%Qc 0%Qc demo_mined 1 demo_ops_run) as [_ Hfound].
  destruct (block_number_is_position toy_digest toy_size demo_ops
              0%Qc 0%Qc 0%Qc 0%Qc demo_mined 2 demo_ops_run) as [[_ Hnone] _].
  split.
  - apply Hnone. right. vm_compute. discriminate.
  - destruct (get_block_by_number 1 demo_mined) as [b |] eqn:Hb;
      [| vm_compute in Hb; discriminate Hb].
    exists b. split; [reflexivity |]. apply Hfound. reflexivity.
Defined.

(** The block mined by the run is found by its hash. *)
Lemma get_block_by_hash_round_trip_witness :
  produced toy_digest toy_size demo_mined
  /\ exists b,
       chain demo_mined !! 1%nat = Some b
       /\ get_block_by_hash (Block.hash b) demo_mined = Some b.
Proof.
  split; [exact demo_mined_produced |].
  destruct (chain demo_mined !! 1%nat) as [b |] eqn:Hb;
    [| vm_compute in Hb; discriminate Hb].
  exists b. split; [reflexivity |].
  exact (get_block_by_hash_round_trip toy_digest toy_size demo_mined 1%nat b
           demo_mined_produced toy_digest_inj Hb).
Defined.

(** After the run, block 0 is the genesis block of the fresh ledger. *)
Lemma genesis_block_stays_witness :
  run_ops toy_digest toy_size demo_ops demo_fresh = Some demo_mined
  /\ exists g,
       chain demo_fresh = [g]
       /\ get_block_by_number 0 demo_mined = Some g
       /\ Block.transactions g = [].
Proof.
  split; [exact demo_ops_run |].
  destruct (genesis_block_stays toy_digest toy_size demo_ops
              0%Qc 0%Qc 0%Qc 0%Qc demo_mined demo_ops_run)
    as (g & H1 & H2 & _ & _ & H3 & _).
  exists g. auto.
Defined.

(** The transfer of the run is accepted a second time. *)
Lemma staging_reserves_nothing_witness :
  stage_transaction "0xa" 1%Qc 1%Qc demo_request demo_fresh
  = (Returned "0xa"%string, demo_staged)
  /\ exists bc2,
       stage_transaction "0xc" (Qc_of_Z 3) (Qc_of_Z 3) demo_request demo_staged
       = (Returned "0xc"%string, bc2)
       /\ length (pending_transactions bc2)
          = S (S (length (pending_transactions demo_fresh))).
Proof.
  assert (H : stage_transaction "0xa" 1%Qc 1%Qc demo_request demo_fresh
              = (Returned "0xa"%string, demo_staged))
    by (vm_compute; reflexivity).
  split; [exact H |].
  exact (proj2 (staging_reserves_nothing "0xa" 1%Qc 1%Qc demo_request
                  demo_fresh "0xa" demo_staged H) "0xc"%string (Qc_of_Z 3) (Qc_of_Z 3)).
Defined.

(** The pool of the run after staging is ordered. *)
Lemma produced_pool_nonces_ordered_witness :
  produced toy_digest toy_size demo_staged /\ pool_nonces_ordered demo_staged.
Proof.
  split; [exact demo_staged_produced |].
  exact (produced_pool_nonces_ordered toy_digest toy_size demo_staged
           demo_staged_produced).
Defined.

(** Five entries in pages of two: the second page follows the first. *)
Lemma pages_partition_witness :
  1 <= 2 /\ 1 <= 2
  /\ take 2 [10; 20; 30; 40; 50] ++ page_slice 2 2 [10; 20; 30; 40; 50]
     = take 4 [10; 20; 30; 40; 50].
Proof.
  split; [lia |]. split; [lia |].
  exact (proj1 (proj2 (pages_partition 2 2 [10; 20; 30; 40; 50]
                         ltac:(lia) ltac:(lia)))).
Defined.

(** The first page of ten blocks after the run: block 1, then block 0. *)
Lemma get_blocks_page_numbers_witness :
  run_ops toy_digest toy_size demo_ops demo_fresh = Some demo_mined
  /\ 1 <= 10 /\ 1 <= 1
  /\ map bd_number (bp_blocks (api_get_blocks 10 1 demo_mined)) = [1; 0].
Proof.
  split; [exact demo_ops_run |]. split; [lia |]. split; [lia |].
  destruct (get_blocks_page_numbers toy_digest toy_size demo_ops
              0%Qc 0%Qc 0%Qc 0%Qc demo_mined 10 1 demo_ops_run
              ltac:(lia) ltac:(lia)) as [H _].
  rewrite H. vm_compute. reflexivity.
Defined.

(** The transfer of the run submitted to the fresh ledger. *)
Lemma submitted_transaction_is_mined_at_once_witness :
  produced toy_digest toy_size demo_fresh
  /\ pending_transactions demo_fresh = []
  /\ exists bc' a',
       api_create_transaction toy_digest toy_size 10 "0xa" 1%Qc 1%Qc "0xb"
         2%Qc 2%Qc demo_request demo_fresh
       = Some (Success "0xa", bc')
       /\ pending_transactions bc' = []
       /\ length (chain bc') = S (length (chain demo_fresh))
       /\ accounts bc' !! ADDR1 = Some a'
       /\ Account.balance a'
          = Float.add
              (Float.sub (Float.of_int 1000000)
                 (Float.add (Float.of_int 100)
                    (Float.div (Float.of_int 105000)
                       (Float.of_int 1000000000))))
              (Float.of_int 5).
Proof.
  split; [apply produced_init |]. split; [reflexivity |].
  destruct (api_create_transaction toy_digest toy_size 10 "0xa" 1%Qc 1%Qc
              "0xb" 2%Qc 2%Qc demo_request demo_fresh)
    as [[resp bc'] |] eqn:Hrun; [| vm_compute in Hrun; discriminate Hrun].
  assert (Hresp : resp = Success "0xa").
  { apply (f_equal (fmap fst)) in Hrun. vm_compute in Hrun.
    injection Hrun as <-. reflexivity. }
  subst resp.
  destruct (submitted_transaction_is_mined_at_once toy_digest toy_size 10
              "0xa" 1%Qc 1%Qc "0xb" 2%Qc 2%Qc demo_request demo_fresh
              (Success "0xa") bc'
              (produced_init toy_digest toy_size 0%Qc 0%Qc 0%Qc 0%Qc)
              eq_refl Hrun)
    as (_ & _ & H1 & H2 & (a & fee & a' & Ha & Hfee & _ & Ha' & Hbal)).
  exists bc', a'. split; [reflexivity |]. split; [exact H1 |].
  split; [exact H2 |]. split; [exact Ha' |].
  rewrite Hbal by (intros Heq; vm_compute in Heq; discriminate Heq).
  vm_compute in Ha. injection Ha as <-.
  vm_compute in Hfee. injection Hfee as <-.
  vm_compute. reflexivity.
Defined.

(** The chain of the fresh ledger starts the chain after the run. *)
Lemma chain_only_grows_witness :
  run_ops toy_digest toy_size demo_ops demo_fresh = Some demo_mined
  /\ forallb is_update demo_ops = true
  /\ chain demo_fresh `prefix_of` chain demo_mined.
Proof.
  split; [exact demo_ops_run |]. split; [reflexivity |].
  exact (proj2 (proj2 (chain_only_grows toy_digest toy_size demo_ops
                         demo_fresh demo_mined demo_ops_run)) eq_refl).
Defined.

(** The chain is valid after a mining call that raised. *)
Lemma updates_keep_chain_valid_witness :
  forallb is_update demo_stuck_ops = true
  /\ run_ops toy_digest toy_size demo_stuck_ops demo_fresh
     = Some (snd demo_stuck)
  /\ fst demo_stuck = Raised TypeError
  /\ is_chain_valid toy_digest (snd demo_stuck) = true.
Proof.
  split; [reflexivity |]. split; [exact demo_stuck_ops_run |].
  split; [exact (f_equal fst demo_stuck_raises) |].
  exact (updates_keep_chain_valid toy_digest toy_size demo_stuck_ops
           0%Qc 0%Qc 0%Qc 0%Qc (snd demo_stuck) eq_refl demo_stuck_ops_run).
Defined.


(** The sender of the transfer after the mining call of the run. *)
Lemma mining_settles_each_account_witness :
  exists b a a',
    demo_mine = (Returned (Some b), demo_mined)
    /\ accounts demo_staged !! ADDR1 = Some a
    /\ accounts demo_mined !! ADDR1 = Some a'
    /\ Account.balance a'
       = settle ADDR1
           (pending_transactions demo_staged ++ [reward_tx "0xb" 2%Qc ADDR3])
           (Account.balance a)
    /\ Account.nonce a' = Account.nonce a.
Proof.
  destruct demo_mine_returns as [b Hm].
  destruct (accounts demo_staged !! ADDR1) as [a |] eqn:Ha;
    [| vm_compute in Ha; discriminate Ha].
  destruct (proj2 (mining_settles_each_account toy_digest toy_size 10 "0xb"
                     2%Qc 2%Qc ADDR3 demo_staged b demo_mined ADDR1 Hm) a Ha)
    as (a' & H1 & H2 & H3).
  exists b, a, a'. auto.
Defined.

(** After the run, looking up the transfer, or the history of its sender,
    leaves a chain that fails validation. *)
Lemma chain_lookups_invalidate_witness :
  produced toy_digest toy_size demo_mined
  /\ is_chain_valid toy_digest demo_mined = true
  /\ is_chain_valid toy_digest (snd (get_transaction "0xa" demo_mined)) = false
  /\ is_chain_valid toy_digest
       (snd (get_account_transactions ADDR1 demo_mined)) = false.
Proof.
  split; [exact demo_mined_produced |].
  split; [vm_compute; reflexivity |].
  destruct (chain_lookups_invalidate toy_digest toy_size demo_mined "0xa"
              ADDR1 demo_mined_produced toy_digest_inj) as [H1 H2].
  split.
  - apply H1.
    + assert (Hp : pending_transactions demo_mined = [])
        by (vm_compute; reflexivity).
      rewrite Hp. constructor.
    + destruct (fst (get_transaction "0xa" demo_mined)) as [r |] eqn:Hr;
        [eexists; reflexivity | vm_compute in Hr; discriminate Hr].
  - apply H2. intros H. vm_compute in H. discriminate H.
Defined.
